(** * Data-quality rules of the database testing framework

    A shallow embedding of the checks in [tests/data_quality] and
    [tests/integration] together with the properties they satisfy.

    Conventions of the embedding:
    - a Python [str] is a list of code points below 256 ([list ascii]);
    - a [Float] column is an IEEE-754 binary64 value ([PrimFloat.float]),
      with Python's operators mapped to the corresponding primitive;
    - an [Integer] column is a [Z]; a nullable one is an [option Z];
    - a [DateTime] is a [Z] counting microseconds (the resolution of
      Python's [datetime]);
    - a test function returns what it collected and a [Verdict]:
      [Passed], or [Failed] when an [assert] or [pytest.fail] fires. *)

From Stdlib Require Import ZArith QArith List Bool Ascii String Lia.
From Stdlib Require Import Sorting.Sorted Sorting.Permutation.
From Stdlib Require Import Floats.PrimFloat.
From Stdlib Require Floats.SpecFloat Floats.FloatOps Floats.FloatAxioms.
From Stdlib Require Numbers.Cyclic.Int63.Uint63.
Import ListNotations.

#[local] Set Warnings "-inexact-float".

Open Scope Z_scope.

(** ** Python numbers *)

(** [float(z)]: the binary64 value nearest to the integer [z], ties to
    even, whatever the size of [z] within the binary64 range (a 64-bit
    [Integer] column holds -2^63 .. 2^63 - 1; beyond 2^1024, where CPython
    raises [OverflowError], the rounding gives an infinity). *)
Definition float_of_int (z : Z) : float :=
  FloatOps.SF2Prim
    (SpecFloat.binary_normalize FloatOps.prec FloatOps.emax z 0 false).

(** [len(l)] *)
Definition len {A : Type} (l : list A) : Z := Z.of_nat (List.length l).

(** [range(start, start + n)] *)
Fixpoint range_from (start : Z) (n : nat) : list Z :=
  match n with
  | O => []
  | S n' => start :: range_from (start + 1) n'
  end.

(** [sum(xs)] over floats depends on the interpreter: up to CPython 3.11
    the items are added left to right, every addition rounded; from CPython
    3.12 on the float loop of [builtin_sum] carries a compensation term
    (Neumaier's variant of Kahan's summation). *)
Inductive CPython : Type :=
| Upto311
| From312.

(** One turn of the compensated loop on [(f_result, c)]:
    [t = f_result + x;
     if (fabs(f_result) >= fabs(x)) c += (f_result - t) + x;
     else c += (x - t) + f_result;
     f_result = t]. *)
Definition neumaier_step (state : float * float) (x : float) : float * float :=
  let (f_result, c) := state in
  let t := (f_result + x)%float in
  (t,
   if (abs x <=? abs f_result)%float
   then (c + ((f_result - t) + x))%float
   else (c + ((x - t) + f_result))%float).

(** After the loop: [if (c && isfinite(c)) f_result += c]. *)
Definition neumaier_finish (state : float * float) : float :=
  let (f_result, c) := state in
  if negb (c =? 0)%float && is_finite c then (f_result + c)%float
  else f_result.

(** [sum(xs)]: the integer 0 for no item; otherwise the first item is added
    to the integer 0 and the float loop of the interpreter takes the rest. *)
Definition py_sum (python : CPython) (xs : list float) : float :=
  match xs with
  | [] => float_of_int 0
  | x :: rest =>
      let first := (float_of_int 0 + x)%float in
      match python with
      | Upto311 => fold_left PrimFloat.add rest first
      | From312 =>
          neumaier_finish (fold_left neumaier_step rest (first, 0%float))
      end
  end.

(** ** Python strings *)

Module PyStr.

Definition str := list ascii.

Definition lit (s : string) : str := list_ascii_of_string s.

Definition newline : ascii := "010"%char.

Definition code (c : ascii) : N := N_of_ascii c.

Definition between (lo hi : N) (c : ascii) : bool :=
  (lo <=? code c)%N && (code c <=? hi)%N.

Definition shift32 (c : ascii) : ascii := ascii_of_N (code c + 32).

(** [str.lower()] on one code point: ASCII capitals and the Latin-1
    capitals U+00C0..U+00DE (U+00D7, the multiplication sign, is not a
    letter). *)
Definition lower_char (c : ascii) : ascii :=
  if between 65 90 c then shift32 c
  else if between 192 222 c && negb (code c =? 215)%N then shift32 c
  else c.

Definition lower (s : str) : str := map lower_char s.

(** SQL [lower()] as SQLite evaluates it: only ASCII capitals fold. *)
Definition sql_lower_char (c : ascii) : ascii :=
  if between 65 90 c then shift32 c else c.

Definition sql_lower (s : str) : str := map sql_lower_char s.

(** [str.isspace()] on one code point. *)
Definition isspace (c : ascii) : bool :=
  between 9 13 c || between 28 32 c || (code c =? 133)%N || (code c =? 160)%N.

Fixpoint lstrip (s : str) : str :=
  match s with
  | c :: s' => if isspace c then lstrip s' else s
  | [] => []
  end.

Definition rstrip (s : str) : str := rev (lstrip (rev s)).

(** [s.strip()] *)
Definition strip (s : str) : str := rstrip (lstrip s).

(** [c in s] for a one-character [c]. *)
Definition contains (c : ascii) (s : str) : bool :=
  existsb (Ascii.eqb c) s.

(** [s.split(sep)] for a one-character separator. *)
Fixpoint split (sep : ascii) (s : str) : list str :=
  match s with
  | [] => [[]]
  | c :: s' =>
      if Ascii.eqb c sep then [] :: split sep s'
      else match split sep s' with
           | p :: ps => (c :: p) :: ps
           | [] => [[c]]
           end
  end.

Definition str_eqb (a b : str) : bool :=
  if list_eq_dec ascii_dec a b then true else false.

(** [repr(s)]: the string between quotes, with escapes.  The quote is the
    double quote when [s] has a single quote and no double quote, the
    single quote otherwise. *)
Definition single_quote : ascii := "039"%char.
Definition double_quote : ascii := "034"%char.
Definition backslash : ascii := "092"%char.

Definition repr_quote (s : str) : ascii :=
  if contains single_quote s && negb (contains double_quote s)
  then double_quote else single_quote.

(** [str.isprintable()] on one code point below 256: not a control
    character, not a separator other than the space, not the soft
    hyphen. *)
Definition isprintable (c : ascii) : bool :=
  between 32 126 c || (between 161 255 c && negb (code c =? 173)%N).

Definition hex_digit (n : N) : ascii :=
  if (n <? 10)%N then ascii_of_N (48 + n) else ascii_of_N (87 + n).

(** The escape [\xHH], in lower-case digits. *)
Definition hex_escape (c : ascii) : str :=
  [backslash; "x"%char; hex_digit (code c / 16); hex_digit (code c mod 16)].

Definition repr_char (quote c : ascii) : str :=
  if Ascii.eqb c quote || Ascii.eqb c backslash then [backslash; c]
  else if Ascii.eqb c "009"%char then [backslash; "t"%char]
  else if Ascii.eqb c "010"%char then [backslash; "n"%char]
  else if Ascii.eqb c "013"%char then [backslash; "r"%char]
  else if (code c <? 32)%N || (code c =? 127)%N then hex_escape c
  else if (code c <? 127)%N then [c]
  else if isprintable c then [c]
  else hex_escape c.

Definition repr (s : str) : str :=
  let quote := repr_quote s in
  quote :: flat_map (repr_char quote) s ++ [quote].

End PyStr.

Import PyStr.

(** ** Regular expressions ([re] module)

    Only the constructs the test suite's patterns use: literals,
    character classes, concatenation, [+] and [{n,}].  A pattern is an
    abstract syntax tree; [matchb] decides whether a whole string belongs
    to its language by taking Brzozowski derivatives, which explores the
    same set of matches as Python's backtracking engine. *)

Module Re.

Inductive re : Type :=
| Void
| Eps
| Chr (p : ascii -> bool)
| Cat (r1 r2 : re)
| Alt (r1 r2 : re)
| Star (r : re).

Inductive Matches : re -> str -> Prop :=
| MEps : Matches Eps []
| MChr p c : p c = true -> Matches (Chr p) [c]
| MCat r1 r2 s1 s2 :
    Matches r1 s1 -> Matches r2 s2 -> Matches (Cat r1 r2) (s1 ++ s2)
| MAltL r1 r2 s : Matches r1 s -> Matches (Alt r1 r2) s
| MAltR r1 r2 s : Matches r2 s -> Matches (Alt r1 r2) s
| MStarNil r : Matches (Star r) []
| MStarApp r s1 s2 :
    Matches r s1 -> Matches (Star r) s2 -> Matches (Star r) (s1 ++ s2).


Fixpoint nullable (r : re) : bool :=
  match r with
  | Void => false
  | Eps => true
  | Chr _ => false
  | Cat r1 r2 => nullable r1 && nullable r2
  | Alt r1 r2 => nullable r1 || nullable r2
  | Star _ => true
  end.

Fixpoint deriv (c : ascii) (r : re) : re :=
  match r with
  | Void => Void
  | Eps => Void
  | Chr p => if p c then Eps else Void
  | Cat r1 r2 =>
      if nullable r1 then Alt (Cat (deriv c r1) r2) (deriv c r2)
      else Cat (deriv c r1) r2
  | Alt r1 r2 => Alt (deriv c r1) (deriv c r2)
  | Star r1 => Cat (deriv c r1) (Star r1)
  end.

Fixpoint matchb (r : re) (s : str) : bool :=
  match s with
  | [] => nullable r
  | c :: s' => matchb (deriv c r) s'
  end.

(** Pattern syntax. *)
Definition plus (r : re) : re := Cat r (Star r).            (* r+ *)

Fixpoint at_least (n : nat) (r : re) : re :=                (* r{n,} *)
  match n with
  | O => Star r
  | S n' => Cat r (at_least n' r)
  end.

Definition chr (c : ascii) : re := Chr (Ascii.eqb c).

Fixpoint literal (s : str) : re :=
  match s with
  | [] => Eps
  | c :: s' => Cat (chr c) (literal s')
  end.

Definition any : re := Chr (fun _ => true).

(** [$] at the end of a pattern (no MULTILINE flag): the end of the
    string, or the position just before a newline that ends the string. *)
Definition dollar : re := Alt Eps (chr "010").

(** [compile(r'^body$').match(s)]: [match] anchors at the start, and so
    does [^]. *)
Definition match_anchored (body : re) (s : str) : bool :=
  matchb (Cat body dollar) s.

(** [re.search(r, s)]: some substring of [s] matches. *)
Definition search (r : re) (s : str) : bool :=
  matchb (Cat (Star any) (Cat r (Star any))) s.

(** Character classes. *)
Definition is_lower_az (c : ascii) : bool := between 97 122 c.
Definition is_upper_az (c : ascii) : bool := between 65 90 c.
Definition is_digit (c : ascii) : bool := between 48 57 c.   (* \d, 0-9 *)
Definition is_letter (c : ascii) : bool := is_lower_az c || is_upper_az c.
Definition is_alnum (c : ascii) : bool := is_letter c || is_digit c.
Definition one_of (s : string) (c : ascii) : bool := contains c (lit s).

End Re.

Import Re.

(** ** Entity model ([config/models.py]) *)

Module User.
Record t : Type := mk {
  id : Z;
  name : str;
  email : str;
  created_at : Z;
  is_active : bool;
  age : option Z            (* Column(Integer), nullable *)
}.
End User.

Module Product.
Record t : Type := mk {
  id : Z;
  name : str;
  sku : str;
  price : float;
  stock : Z;
  created_at : Z
}.
End Product.

Module Order.
Record t : Type := mk {
  id : Z;
  user_id : Z;
  status : str;
  total_amount : float;
  created_at : Z
}.
End Order.

Module OrderItem.
Record t : Type := mk {
  id : Z;
  order_id : Z;
  product_id : Z;
  quantity : Z;
  price : float
}.
End OrderItem.

(** The outcome of a test function. *)
Inductive Verdict : Type := Passed | Failed.

(** [assert len(findings) == 0] *)
Definition assert_none {A : Type} (findings : list A) : Verdict :=
  match findings with
  | [] => Passed
  | _ :: _ => Failed
  end.

(** ** Email validation ([tests/data_quality/test_email_validation.py]) *)

Module EmailValidation.

(** One entry of [invalid_emails]. *)
Record Issue : Type := mkIssue {
  user_id : Z;
  name : option str;        (* only [test_email_contains_at_symbol] fills it *)
  email : str;
  issue : string
}.

Definition at_issue (user : User.t) : list Issue :=
  if negb (contains "@" (User.email user))
  then [mkIssue (User.id user) (Some (User.name user)) (User.email user)
          "Missing @ symbol"]
  else [].

Definition test_email_contains_at_symbol (sample_users : list User.t)
  : list Issue * Verdict :=
  let invalid_emails := flat_map at_issue sample_users in
  (invalid_emails, assert_none invalid_emails).

Definition is_empty (s : str) : bool :=          (* [not s] *)
  match s with [] => true | _ :: _ => false end.

Definition domain_issue (user : User.t) : list Issue :=
  let email := User.email user in
  if contains "@" email then
    let parts := split "@" email in
    if negb (List.length parts =? 2)%nat
       || is_empty (nth 1 parts []) || is_empty (nth 0 parts [])
    then [mkIssue (User.id user) None email "Malformed @ structure"]
    else if negb (contains "." (nth 1 parts []))
    then [mkIssue (User.id user) None email "Domain missing . (dot)"]
    else []
  else [].

Definition test_email_has_domain (sample_users : list User.t)
  : list Issue * Verdict :=
  let invalid_emails := flat_map domain_issue sample_users in
  (invalid_emails, assert_none invalid_emails).

(** The two [if]s are independent: one email can be reported twice.  The
    first entry holds [repr(email)], the second the email itself. *)
Definition whitespace_issues (user : User.t) : list Issue :=
  let email := User.email user in
  (if negb (str_eqb email (strip email))
   then [mkIssue (User.id user) None (repr email) "Leading/trailing whitespace"]
   else [])
  ++
  (if contains " " email
   then [mkIssue (User.id user) None email "Contains spaces"]
   else []).

Definition test_email_no_whitespace (sample_users : list User.t)
  : list Issue * Verdict :=
  let invalid_emails := flat_map whitespace_issues sample_users in
  (invalid_emails, assert_none invalid_emails).

(** [[a-zA-Z0-9._%+-]] and [[a-zA-Z0-9.-]] *)
Definition local_class (c : ascii) : bool := is_alnum c || one_of "._%+-" c.
Definition domain_class (c : ascii) : bool := is_alnum c || one_of ".-" c.

(** [r'^[a-zA-Z0-9._%+-]+@[a-zA-Z0-9.-]+\.[a-zA-Z]{2,}$'], the anchors
    being supplied by [match_anchored]. *)
Definition email_pattern : re :=
  Cat (plus (Chr local_class))
 (Cat (chr "@")
 (Cat (plus (Chr domain_class))
 (Cat (chr ".")
      (at_least 2 (Chr is_letter))))).

(** The shape of a string that [email_pattern.match] accepts: local part,
    [@], domain, [.], top-level domain, then what [$] leaves unread. *)
Inductive Accepted (s : str) : Prop :=
| accepted (local domain tld : str) (last : ascii) (tail : str) :
    s = local ++ "@"%char :: (domain ++ "."%char :: tld ++ [last]) ++ tail ->
    local <> [] ->
    Forall (fun c => local_class c = true) local ->
    domain <> [] ->
    Forall (fun c => domain_class c = true) domain ->
    Forall (fun c => is_letter c = true) (tld ++ [last]) ->
    (2 <= List.length (tld ++ [last]))%nat ->
    tail = [] \/ tail = [newline] ->
    Accepted s.



(** One entry of [suspicious_emails]. *)
Record Suspicious : Type := mkSuspicious {
  s_user_id : Z;
  s_email : str;
  s_pattern : string;
  s_risk : string
}.

(** [suspicious_patterns], each with its source text. *)
Definition suspicious_patterns : list (string * re) :=
  [ ("test@test"%string, literal (lit "test@test"));
    ("admin@admin"%string, literal (lit "admin@admin"));
    ("fake@"%string, literal (lit "fake@"));
    ("noreply@"%string, literal (lit "noreply@"));
    ("@mailinator"%string, literal (lit "@mailinator"));
    ("@guerrillamail"%string, literal (lit "@guerrillamail"));
    ("@10minutemail"%string, literal (lit "@10minutemail"));
    ("\d{5,}@"%string, Cat (at_least 5 (Chr is_digit)) (chr "@")) ].

(** The inner [for pattern in suspicious_patterns: ... break]: the first
    pattern that [re.search] finds in the lowercased email. *)
Definition first_pattern (email : str) : option (string * re) :=
  find (fun p => search (snd p) email) suspicious_patterns.

Definition suspicious_entry (user : User.t) : list Suspicious :=
  match first_pattern (lower (User.email user)) with
  | Some p => [mkSuspicious (User.id user) (User.email user) (fst p)
                 "Potential fake/test account"]
  | None => []
  end.

Definition is_suspicious (user : User.t) : bool :=
  existsb (fun p => search (snd p) (lower (User.email user)))
          suspicious_patterns.

(** [len(suspicious_emails) > len(sample_users) * 0.1].  Python compares
    an integer with a float by value; the literal is read here as the
    exact tenth, and [exceeds_tenth_binary64] below is the same test with
    the product rounded to binary64 as CPython computes it. *)
Definition exceeds_tenth (found scanned : Z) : bool :=
  negb (Qle_bool (inject_Z found) (inject_Z scanned * (1 # 10))).

Definition exceeds_tenth_binary64 (found scanned : Z) : bool :=
  (float_of_int scanned * 0.1 <? float_of_int found)%float.

Definition test_email_suspicious_patterns (sample_users : list User.t)
  : list Suspicious * Verdict :=
  let suspicious_emails := flat_map suspicious_entry sample_users in
  (suspicious_emails,
   if exceeds_tenth (len suspicious_emails) (len sample_users)
   then Failed          (* pytest.fail *)
   else Passed).

End EmailValidation.

(** ** Value ranges ([tests/data_quality/test_value_ranges.py]) *)

Module AgeIssue.
Record t : Type := mk { user_id : Z; name : str; age : Z; issue : string }.
End AgeIssue.

Module PriceIssue.
Record t : Type := mk { product_id : Z; name : str; price : float; issue : string }.
End PriceIssue.

Module ValueRanges.

(** One turn of the loop of [test_age_in_valid_range] over the two lists
    it fills, [invalid_ages] and [suspicious_ages]. *)
Definition age_step (lists : list AgeIssue.t * list AgeIssue.t)
  (user : User.t) : list AgeIssue.t * list AgeIssue.t :=
  let (invalid_ages, suspicious_ages) := lists in
  match User.age user with
  | None => lists                                             (* continue *)
  | Some age =>
      if (age <? 0) || (age >? 120) then
        (invalid_ages ++
           [AgeIssue.mk (User.id user) (User.name user) age
              "Age outside valid range (0-120)"],
         suspicious_ages)
      else if age <? 13 then
        (invalid_ages,
         suspicious_ages ++
           [AgeIssue.mk (User.id user) (User.name user) age
              "Minor account (<13) - may violate TOS"])
      else lists
  end.

(** What one user adds to each list. *)
Definition age_entries (user : User.t) : list AgeIssue.t * list AgeIssue.t :=
  age_step ([], []) user.

Definition has_age (user : User.t) : bool :=
  match User.age user with Some _ => true | None => false end.

Definition test_age_in_valid_range (sample_users : list User.t)
  : list AgeIssue.t * list AgeIssue.t * Verdict :=
  let (invalid_ages, suspicious_ages) :=
    fold_left age_step sample_users ([], []) in
  (invalid_ages, suspicious_ages, assert_none invalid_ages).

Definition price_issue (product : Product.t) : list PriceIssue.t :=
  let price := Product.price product in
  let entry := PriceIssue.mk (Product.id product) (Product.name product) price in
  if (price <? 0)%float then [entry "Negative price"%string]
  else if (price =? 0)%float then [entry "Zero price (verify intentional)"%string]
  else if (1000000 <? price)%float then [entry "Price > $1M (verify legitimate)"%string]
  else [].

Definition test_price_in_valid_range (sample_products : list Product.t)
  : list PriceIssue.t * Verdict :=
  let invalid_prices := flat_map price_issue sample_products in
  (invalid_prices, assert_none invalid_prices).

End ValueRanges.

(** ** Duplicates ([tests/data_quality/test_duplicates.py]) *)

Module DuplicateOrder.
Record t : Type := mk {
  order1_id : Z;
  order2_id : Z;
  user_id : Z;
  amount : float;
  time_diff : Z             (* microseconds *)
}.
End DuplicateOrder.

Module Duplicates.

Definition str_dec : forall a b : str, {a = b} + {a <> b} :=
  list_eq_dec ascii_dec.

(** [SELECT key, count(id) ... GROUP BY key]: one row for each distinct
    key, with the number of records that carry it. *)
Definition group_count (keys : list str) : list (str * Z) :=
  map (fun k => (k, len (filter (str_eqb k) keys))) (nodup str_dec keys).

(** [... HAVING count(id) > 1] *)
Definition having_many (groups : list (str * Z)) : list (str * Z) :=
  filter (fun g => 1 <? snd g) groups.

Definition test_no_duplicate_emails (users : list User.t)
  : list (str * Z) * Verdict :=
  let duplicates :=
    having_many (group_count (map (fun u => sql_lower (User.email u)) users)) in
  (duplicates, assert_none duplicates).

(** [ORDER BY user_id, created_at]: the comparison of two rows, and the
    sort (an insertion sort, which keeps rows with equal keys in the
    order of the table). *)
Definition key_ltb (a b : Order.t) : bool :=
  (Order.user_id a <? Order.user_id b)
  || ((Order.user_id a =? Order.user_id b)
      && (Order.created_at a <? Order.created_at b)).

Definition key_le (a b : Order.t) : Prop :=
  Order.user_id a < Order.user_id b \/
  (Order.user_id a = Order.user_id b /\
   Order.created_at a <= Order.created_at b).

Fixpoint insert_row (o : Order.t) (sorted : list Order.t) : list Order.t :=
  match sorted with
  | [] => [o]
  | x :: rest => if key_ltb o x then o :: sorted
                 else x :: insert_row o rest
  end.

Definition order_by_user_created (orders : list Order.t) : list Order.t :=
  fold_left (fun sorted o => insert_row o sorted) orders [].

(** The pairs [(all_orders[i], all_orders[i + 1])] for
    [i in range(len(all_orders) - 1)]. *)
Fixpoint adjacent_pairs {A : Type} (l : list A) : list (A * A) :=
  match l with
  | a :: (b :: _) as rest => (a, b) :: adjacent_pairs rest
  | _ => []
  end.

(** [(order1.created_at - order2.created_at).total_seconds()] is the exact
    difference in microseconds divided by 10^6; below 60 seconds means
    below 60 000 000 microseconds. *)
Definition similar (order1 order2 : Order.t) : bool :=
  (Order.user_id order1 =? Order.user_id order2)
  && (Order.total_amount order1 =? Order.total_amount order2)%float
  && (Z.abs (Order.created_at order1 - Order.created_at order2) <? 60000000).

Definition duplicate_entry (pair : Order.t * Order.t) : list DuplicateOrder.t :=
  let (order1, order2) := pair in
  if similar order1 order2 then
    [DuplicateOrder.mk (Order.id order1) (Order.id order2)
       (Order.user_id order1) (Order.total_amount order1)
       (Z.abs (Order.created_at order1 - Order.created_at order2))]
  else [].

(** Nothing is asserted: the test only prints what it found. *)
Definition test_exact_duplicate_orders (orders : list Order.t)
  : list DuplicateOrder.t * Verdict :=
  let all_orders := order_by_user_created orders in
  let duplicates := flat_map duplicate_entry (adjacent_pairs all_orders) in
  (duplicates, Passed).

End Duplicates.

(** ** Data integrity ([tests/integration/test_data_integrity.py]) *)

Module Inconsistency.
Record t : Type := mk {
  order_id : Z;
  stored_total : float;
  calculated_total : float;
  difference : float
}.
End Inconsistency.

Module DataIntegrity.

(** The tables a session reads. *)
Record Database : Type := mkDatabase {
  users : list User.t;
  products : list Product.t;
  orders : list Order.t;
  order_items : list OrderItem.t
}.

(** [query(Child).outerjoin(Parent, on)]: every child row, paired with
    each parent that matches it, or with NULL when none does. *)
Definition join_rows {C P : Type} (on : C -> P -> bool) (parents : list P)
  (c : C) : list (C * option P) :=
  match filter (on c) parents with
  | [] => [(c, None)]
  | p :: matches => map (fun p => (c, Some p)) (p :: matches)
  end.

Definition outerjoin {C P : Type} (on : C -> P -> bool)
  (children : list C) (parents : list P) : list (C * option P) :=
  flat_map (join_rows on parents) children.

(** [.filter(Parent.id == None).all()] *)
Definition parent_is_null {C P : Type} (row : C * option P) : bool :=
  match snd row with None => true | Some _ => false end.

Definition orphaned {C P : Type} (on : C -> P -> bool)
  (children : list C) (parents : list P) : list C :=
  map fst (filter parent_is_null (outerjoin on children parents)).

Definition test_no_orphaned_orders (db : Database) : list Order.t * Verdict :=
  let orphaned_orders :=
    orphaned (fun o u => Order.user_id o =? User.id u) (orders db) (users db) in
  (orphaned_orders, assert_none orphaned_orders).

Definition test_no_orphaned_order_items (db : Database)
  : list OrderItem.t * Verdict :=
  let orphaned_items :=
    orphaned (fun i o => OrderItem.order_id i =? Order.id o)
             (order_items db) (orders db) in
  (orphaned_items, assert_none orphaned_items).

Definition test_no_orphaned_order_items_products (db : Database)
  : list OrderItem.t * Verdict :=
  let orphaned_items :=
    orphaned (fun i p => OrderItem.product_id i =? Product.id p)
             (order_items db) (products db) in
  (orphaned_items, assert_none orphaned_items).

(** [order.items]: the relationship follows [order_items.order_id]. *)
Definition items (db : Database) (order : Order.t) : list OrderItem.t :=
  filter (fun i => OrderItem.order_id i =? Order.id order) (order_items db).

(** [sum(item.quantity * item.price for item in order.items)], as the
    interpreter [python] sums. *)
Definition calculated_total (python : CPython) (db : Database)
  (order : Order.t) : float :=
  py_sum python
    (map (fun item =>
            (float_of_int (OrderItem.quantity item) * OrderItem.price item)%float)
         (items db order)).

Definition inconsistency (python : CPython) (db : Database) (order : Order.t)
  : list Inconsistency.t :=
  let calculated_total := calculated_total python db order in
  if (0.01 <? abs (Order.total_amount order - calculated_total))%float then
    [Inconsistency.mk (Order.id order) (Order.total_amount order)
       calculated_total (Order.total_amount order - calculated_total)%float]
  else [].

Definition test_order_total_matches_items_sum (python : CPython)
  (db : Database) (sample_orders : list Order.t)
  : list Inconsistency.t * Verdict :=
  let inconsistencies := flat_map (inconsistency python db) sample_orders in
  (inconsistencies, assert_none inconsistencies).

(** [query(Product).filter(Product.price <= 0).all()] *)
Definition test_negative_price_detection (db : Database)
  : list Product.t * Verdict :=
  let invalid_price_products :=
    filter (fun p => (Product.price p <=? 0)%float) (products db) in
  (invalid_price_products, assert_none invalid_price_products).

End DataIntegrity.

(** ** Constraint probes ([TestForeignKeyConstraints], [TestConstraintViolations])

    The probes run against an ORM session.  The model keeps what they can
    observe of it: the rows the database holds ([committed]) and the rows
    added to the session but not yet written ([pending]).  Whether the
    database takes a row is its own business; the probes are stated for
    an arbitrary decision procedure [accepts]. *)

Module Session.

(** A freshly constructed object: the keyword arguments given to the
    model class, a column left out being NULL. *)
Inductive Row : Type :=
| UserRow (name email : option str) (age : option Z)
| ProductRow (name sku : option str) (price : float) (stock : Z)
| OrderRow (user_id : Z) (status : str) (total_amount : float).

Record t : Type := mk {
  committed : list Row;
  pending : list Row
}.

(** What a statement can raise: an ordinary [Exception] (here always the
    database refusing a flush, or an [IndexError]), or the [Failed] of
    [pytest.fail], which derives from [BaseException] and so passes
    through [except Exception]. *)
Inductive Raised : Type :=
| Error
| TestFailed (reason : string).

Inductive Result (A : Type) : Type :=
| Ok (a : A)
| Raise (e : Raised).
Arguments Ok {A} a.
Arguments Raise {A} e.

(** A statement: it runs on a session and leaves a session, also when it
    raises. *)
Definition M (A : Type) : Type := t -> Result A * t.

Definition ret {A : Type} (a : A) : M A := fun s => (Ok a, s).

Definition bind {A B : Type} (c : M A) (k : A -> M B) : M B :=
  fun s => match c s with
           | (Ok a, s') => k a s'
           | (Raise e, s') => (Raise e, s')
           end.

Definition raise {A : Type} (e : Raised) : M A := fun s => (Raise e, s).

(** [try: body  except Exception: handler] *)
Definition try_except {A : Type} (body handler : M A) : M A :=
  fun s => match body s with
           | (Raise Error, s') => handler s'
           | outcome => outcome
           end.

(** [pytest.fail(reason)] *)
Definition pytest_fail {A : Type} (reason : string) : M A :=
  raise (TestFailed reason).

(** [for x in xs: body(x)] *)
Fixpoint for_each {A : Type} (xs : list A) (body : A -> M unit) : M unit :=
  match xs with
  | [] => ret tt
  | x :: xs' => bind (body x) (fun _ => for_each xs' body)
  end.

(** [xs[0]] *)
Definition first {A : Type} (xs : list A) : M A :=
  match xs with
  | x :: _ => ret x
  | [] => raise Error
  end.

Section Store.

Variable accepts : list Row -> Row -> bool.

(** Writing the pending rows, in the order they were added, into the
    tables [db]; [None] when the database refuses one. *)
Fixpoint flush (db : list Row) (rows : list Row) : option (list Row) :=
  match rows with
  | [] => Some db
  | r :: rows' => if accepts db r then flush (db ++ [r]) rows' else None
  end.

(** [session.add(row)] *)
Definition add (row : Row) : M unit :=
  fun s => (Ok tt, mk (committed s) (pending s ++ [row])).

(** [session.commit()]: flush, then make the result durable.  When the
    flush is refused the exception leaves the database as it was and the
    session still holding its rows. *)
Definition commit : M unit :=
  fun s => match flush (committed s) (pending s) with
           | Some db => (Ok tt, mk db [])
           | None => (Raise Error, s)
           end.

(** [session.rollback()]: drop what has not been committed. *)
Definition rollback : M unit :=
  fun s => (Ok tt, mk (committed s) []).

Definition fk_order : Row :=
  let invalid_user_id := 99999 in
  OrderRow invalid_user_id (lit "pending") 100%float.

Definition test_cannot_insert_order_with_invalid_user_id : M unit :=
  bind (add fk_order) (fun _ =>
  try_except
    (bind commit (fun _ =>        (* accepted: prints a warning *)
     rollback))                   (* "Cleanup" *)
    rollback).                    (* refused: the expected outcome *)

Definition duplicate_user (existing_user : User.t) : Row :=
  let existing_email := User.email existing_user in
  UserRow (Some (lit "Different Name")) (Some existing_email) (Some 25).

Definition test_duplicate_email_rejected (sample_users : list User.t)
  : M unit :=
  bind (first sample_users) (fun existing_user =>
  bind (add (duplicate_user existing_user)) (fun _ =>
  try_except
    (bind commit (fun _ =>
     pytest_fail "UNIQUE constraint not enforced on email"))
    rollback)).

Definition missing_name : Row :=
  UserRow None (Some (lit "test@example.com")) (Some 30).
Definition missing_email : Row :=
  UserRow (Some (lit "John Doe")) None (Some 30).

Definition test_null_required_fields_rejected : M unit :=
  let invalid_users := [missing_name; missing_email] in
  for_each invalid_users (fun user =>
    bind (add user) (fun _ =>
    try_except
      (bind commit (fun _ =>
       pytest_fail "Should reject NULL in required fields"))
      rollback)).

Definition duplicate_product (existing_product : Product.t) : Row :=
  let existing_sku := Product.sku existing_product in
  ProductRow (Some (lit "Different Product")) (Some existing_sku)
             99.99%float 10.

Definition test_duplicate_sku_rejected (sample_products : list Product.t)
  : M unit :=
  bind (first sample_products) (fun existing_product =>
  bind (add (duplicate_product existing_product)) (fun _ =>
  try_except
    (bind commit (fun _ =>
     pytest_fail "UNIQUE constraint not enforced on SKU"))
    rollback)).

(** A test under the [db_session] fixture: the test body, then the
    fixture's [session.rollback()] (and [close()]) whatever the outcome.
    An exception that leaves the body fails the test. *)
Definition run (test : M unit) (s : t) : Verdict * t :=
  let (outcome, s') := test s in
  (match outcome with Ok _ => Passed | Raise _ => Failed end,
   snd (rollback s')).

End Store.

(** A database that checks nothing (SQLite leaves foreign keys
    unchecked unless asked to). *)
Definition lenient (db : list Row) (row : Row) : bool := true.

(** A database that refuses every row the probes try. *)
Definition strict (db : list Row) (row : Row) : bool := false.

Definition jane_row : Row :=
  UserRow (Some (lit "Jane Roe")) (Some (lit "jane.roe@example.com")) (Some 30).

End Session.

(** ** Sample records *)

Definition jane : User.t :=
  User.mk 1 (lit "Jane Roe") (lit "jane.roe@example.com") 0 true (Some 30).



Definition no_age (n : Z) : User.t :=
  User.mk n (lit "Sam Doe") (lit "sam.doe@example.com") 0 true None.

Definition aged (n age : Z) : User.t :=
  User.mk n (lit "Kim Lee") (lit "kim.lee@example.com") 0 true (Some age).

Definition free_sample : Product.t :=
  Product.mk 1 (lit "Free sample") (lit "SKU-000001") 0%float 10 0.

Definition kettle : Product.t :=
  Product.mk 2 (lit "Kettle") (lit "SKU-000002") 25.5%float 4 0.

(** Scenario B: a stored total of 100.00 against one line of 3 x 33.00. *)
Definition order_b : Order.t := Order.mk 7 1 (lit "pending") 100%float 0.
Definition line_b : OrderItem.t := OrderItem.mk 70 7 2 3 33%float.

(** Scenario C: a line whose [order_id] matches no order. *)
Definition stray_line : OrderItem.t := OrderItem.mk 71 999 2 1 25.5%float.

Definition shop : DataIntegrity.Database :=
  DataIntegrity.mkDatabase [jane] [free_sample; kettle] [order_b]
    [line_b; stray_line].

(** The same shop after the only account was removed: the order is left
    without its user. *)
Definition ownerless_shop : DataIntegrity.Database :=
  DataIntegrity.mkDatabase [] [free_sample; kettle] [order_b]
    [line_b; stray_line].

(** Scenario A: two accounts whose emails differ only in case. *)
Definition jane_upper : User.t :=
  User.mk 11 (lit "Jane Roe") (lit "Jane@Example.com") 0 true (Some 30).
Definition jane_lower : User.t :=
  User.mk 12 (lit "J. Roe") (lit "jane@example.com") 0 true (Some 31).

(** Two orders of one user, 20 seconds apart, for the same amount. *)
Definition first_click : Order.t := Order.mk 21 5 (lit "pending") 49.5%float 1000000.
Definition second_click : Order.t := Order.mk 22 5 (lit "pending") 49.5%float 21000000.
Definition other_order : Order.t := Order.mk 23 4 (lit "completed") 49.5%float 2000000.

(** Scenario E: 100 users, the first [flagged] of them with a test
    address. *)
Definition crowd (flagged : nat) : list User.t :=
  map (fun i => User.mk i (lit "Test User") (lit "Test@Test.com") 0 true None)
      (range_from 1 flagged)
  ++ map (fun i => User.mk i (lit "Pat Ray") (lit "pat.ray@example.org") 0 true None)
         (range_from (1 + Z.of_nat flagged) (100 - flagged)).

(** ** Comparing binary64 values *)

(** How a float compares with one that is not NaN. *)
Inductive FloatCase (x y : float) : Prop :=
| IsNaN :
    (x =? x)%float = false -> (x <? y)%float = false ->
    (x <=? y)%float = false -> (x =? y)%float = false ->
    (y <? x)%float = false -> (y <=? x)%float = false -> FloatCase x y
| IsBelow :
    (x =? x)%float = true -> (x <? y)%float = true ->
    (x <=? y)%float = true -> (x =? y)%float = false ->
    (y <? x)%float = false -> (y <=? x)%float = false -> FloatCase x y
| IsEqual :
    (x =? x)%float = true -> (x <? y)%float = false ->
    (x <=? y)%float = true -> (x =? y)%float = true ->
    (y <? x)%float = false -> (y <=? x)%float = true -> FloatCase x y
| IsAbove :
    (x =? x)%float = true -> (x <? y)%float = false ->
    (x <=? y)%float = false -> (x =? y)%float = false ->
    (y <? x)%float = true -> (y <=? x)%float = true -> FloatCase x y.


(** ** The remaining checks of [test_value_ranges.py] *)

Module StockIssue.
Record t : Type := mk { product_id : Z; name : str; stock : Z; issue : string }.
End StockIssue.

Module OutOfStock.
Record t : Type := mk { product_id : Z; name : str }.
End OutOfStock.

Module TotalIssue.
Record t : Type := mk { order_id : Z; total : float; issue : string }.
End TotalIssue.

Module StatusIssue.
Record t : Type := mk { order_id : Z; status : str; issue : string }.
End StatusIssue.

Module RangeChecks.

(** One turn of the loop of [test_stock_in_valid_range] over
    [invalid_stock] and [out_of_stock]. *)
Definition stock_step (lists : list StockIssue.t * list OutOfStock.t)
  (product : Product.t) : list StockIssue.t * list OutOfStock.t :=
  let (invalid_stock, out_of_stock) := lists in
  let stock := Product.stock product in
  if stock <? 0 then
    (invalid_stock ++
       [StockIssue.mk (Product.id product) (Product.name product) stock
          "Negative stock (impossible)"],
     out_of_stock)
  else if stock >? 100000 then
    (invalid_stock ++
       [StockIssue.mk (Product.id product) (Product.name product) stock
          "Stock > 100k (verify warehouse capacity)"],
     out_of_stock)
  else if stock =? 0 then
    (invalid_stock,
     out_of_stock ++ [OutOfStock.mk (Product.id product) (Product.name product)])
  else lists.

(** What one product adds to each list. *)
Definition stock_entries (product : Product.t)
  : list StockIssue.t * list OutOfStock.t :=
  stock_step ([], []) product.

Definition test_stock_in_valid_range (sample_products : list Product.t)
  : list StockIssue.t * list OutOfStock.t * Verdict :=
  let (invalid_stock, out_of_stock) :=
    fold_left stock_step sample_products ([], []) in
  (invalid_stock, out_of_stock, assert_none invalid_stock).

Definition total_issue (order : Order.t) : list TotalIssue.t :=
  let total := Order.total_amount order in
  if (total <=? 0)%float then
    [TotalIssue.mk (Order.id order) total "Zero or negative total"]
  else if (100000 <? total)%float then
    [TotalIssue.mk (Order.id order) total "Total > $100k (fraud risk - review)"]
  else [].

Definition test_order_total_in_valid_range (sample_orders : list Order.t)
  : list TotalIssue.t * Verdict :=
  let invalid_totals := flat_map total_issue sample_orders in
  (invalid_totals, assert_none invalid_totals).

(** One entry of [issues]; the test keeps the text
    ["User 3: created_at = ..."], the entry keeps its parts. *)
Inductive FutureIssue : Type :=
| FutureUser (id created_at : Z)
| FutureProduct (id created_at : Z)
| FutureOrder (id created_at : Z).

(** [now] is the value of [datetime.now(timezone.utc)] when the test
    starts. *)
Definition test_created_dates_not_in_future (now : Z)
  (db : DataIntegrity.Database) : list FutureIssue * Verdict :=
  let future_users :=
    filter (fun u => User.created_at u >? now) (DataIntegrity.users db) in
  let future_products :=
    filter (fun p => Product.created_at p >? now) (DataIntegrity.products db) in
  let future_orders :=
    filter (fun o => Order.created_at o >? now) (DataIntegrity.orders db) in
  let issues :=
    map (fun u => FutureUser (User.id u) (User.created_at u)) future_users
    ++ map (fun p => FutureProduct (Product.id p) (Product.created_at p))
           future_products
    ++ map (fun o => FutureOrder (Order.id o) (Order.created_at o))
           future_orders in
  (issues, assert_none issues).

Definition valid_statuses : list str :=
  [lit "pending"; lit "completed"; lit "cancelled"].

(** [status in valid_statuses] *)
Definition is_valid_status (status : str) : bool :=
  existsb (str_eqb status) valid_statuses.

Definition status_issue (order : Order.t) : list StatusIssue.t :=
  let status := Order.status order in
  if negb (is_valid_status status) then
    [StatusIssue.mk (Order.id order) status
       "Invalid status (not in ['pending', 'completed', 'cancelled'])"]
  else [].

Definition test_order_status_values (sample_orders : list Order.t)
  : list StatusIssue.t * Verdict :=
  let invalid_statuses := flat_map status_issue sample_orders in
  (invalid_statuses, assert_none invalid_statuses).

End RangeChecks.

(** ** The remaining checks of [test_duplicates.py] *)

(** The sort key of [ORDER BY user_id, created_at], and its strict
    order. *)
Definition order_key (o : Order.t) : Z * Z :=
  (Order.user_id o, Order.created_at o).

Definition key_lt (a b : Order.t) : Prop :=
  Order.user_id a < Order.user_id b \/
  (Order.user_id a = Order.user_id b /\
   Order.created_at a < Order.created_at b).


Module DuplicateChecks.

Definition test_no_duplicate_skus (products : list Product.t)
  : list (str * Z) * Verdict :=
  let duplicates :=
    Duplicates.having_many
      (Duplicates.group_count (map Product.sku products)) in
  (duplicates, assert_none duplicates).

(** The list is only printed: "This is a warning, not a hard error". *)
Definition test_no_duplicate_user_names_suspicious (users : list User.t)
  : list (str * Z) * Verdict :=
  let duplicates :=
    Duplicates.having_many
      (Duplicates.group_count (map User.name users)) in
  (duplicates, Passed).

End DuplicateChecks.

(** A string that [strip()] leaves alone: empty, or with no whitespace
    at either end. *)
Definition clean_ends (s : str) : Prop :=
  match s with
  | [] => True
  | c :: _ => isspace c = false /\ isspace (last s c) = false
  end.

(** ** [test_email_case_consistency] *)

Module CaseEntry.
Record t : Type := mk { id : Z; original : str }.
End CaseEntry.

Module CaseConsistency.

(** [email_groups], a [dict] from the lowercased email to the list of its
    users, as an association list in insertion order.  [group_append] is
    [if k not in d: d[k] = []] followed by [d[k].append(v)]. *)
Fixpoint group_append (k : str) (v : CaseEntry.t)
  (d : list (str * list CaseEntry.t)) : list (str * list CaseEntry.t) :=
  match d with
  | [] => [(k, [v])]
  | (k', vs) :: d' =>
      if str_eqb k k' then (k', vs ++ [v]) :: d'
      else (k', vs) :: group_append k v d'
  end.

Definition email_groups (all_users : list User.t)
  : list (str * list CaseEntry.t) :=
  fold_left (fun d user =>
               let email_lower := lower (User.email user) in
               group_append email_lower
                 (CaseEntry.mk (User.id user) (User.email user)) d)
            all_users [].

(** [set(u['original'] for u in users)]: the distinct spellings (the set
    has no order of its own; the list keeps one). *)
Definition variations (users : list CaseEntry.t) : list str :=
  nodup Duplicates.str_dec (map CaseEntry.original users).

Definition case_issue (group : str * list CaseEntry.t)
  : list (str * list str) :=
  let (email_lower, users) := group in
  if 1 <? len (variations users) then [(email_lower, variations users)]
  else [].

(** [email_groups.get(k, [])] *)
Definition group_of (k : str) (d : list (str * list CaseEntry.t))
  : list CaseEntry.t :=
  match find (fun g => str_eqb k (fst g)) d with
  | Some g => snd g
  | None => []
  end.

Definition case_entry (user : User.t) : CaseEntry.t :=
  CaseEntry.mk (User.id user) (User.email user).

Definition is_ascii (s : str) : Prop :=
  Forall (fun c => (code c <? 128)%N = true) s.

Definition test_email_case_consistency (all_users : list User.t)
  : list (str * list str) * Verdict :=
  let case_issues := flat_map case_issue (email_groups all_users) in
  (case_issues, assert_none case_issues).

End CaseConsistency.

(** ** Deleting a parent row ([TestReferentialIntegrity],
    [TestCorruptionDetection], [TestDataConsistency]) *)

Module Deletion.
Import DataIntegrity.

(** [query(Product).filter(Product.stock < 0).all()] *)
Definition test_negative_stock_detection (db : Database)
  : list Product.t * Verdict :=
  let negative_stock_products :=
    filter (fun p => Product.stock p <? 0) (products db) in
  (negative_stock_products, assert_none negative_stock_products).

(** [DELETE FROM users WHERE id = user_id] on a database that does not
    check foreign keys (SQLite as the suite opens it): the user rows go,
    every other table stays. *)
Definition delete_user (user_id : Z) (db : Database) : Database :=
  mkDatabase (filter (fun u => negb (User.id u =? user_id)) (users db))
             (products db) (orders db) (order_items db).

(** [DELETE FROM orders WHERE id = order_id] *)
Definition delete_order (order_id : Z) (db : Database) : Database :=
  mkDatabase (users db) (products db)
             (filter (fun o => negb (Order.id o =? order_id)) (orders db))
             (order_items db).

(** [query(Order).filter_by(user_id=user_id).all()] *)
Definition orders_of (user_id : Z) (db : Database) : list Order.t :=
  filter (fun o => Order.user_id o =? user_id) (orders db).

(** The test returns what it found, its verdict and the database it
    leaves.  [sample_users[0]] on an empty list raises, which fails the
    test before anything is deleted. *)
Definition test_detect_orphaned_records_after_deletion (db : Database)
  (sample_users : list User.t) : list Order.t * Verdict * Database :=
  match sample_users with
  | [] => ([], Failed, db)
  | user :: _ =>
      let user_id := User.id user in
      let db' := delete_user user_id db in
      let orphaned_orders := orders_of user_id db' in
      (orphaned_orders,
       if (len orphaned_orders =? 0) || (len orphaned_orders >? 0)
       then Passed else Failed,
       db')
  end.

(** The [empty_database] fixture. *)
Definition empty_database : Database := mkDatabase [] [] [] [].

(** [user_id] and [order_id] are the keys the database gives to the two
    rows, [t1] and [t2] their [created_at] defaults. *)
Definition test_inject_orphaned_order_and_detect (user_id order_id t1 t2 : Z)
  : Verdict * Database :=
  let user :=
    User.mk user_id (lit "Test User") (lit "test@corruption.com") t1 true
            (Some 30) in
  let db1 := mkDatabase [user] [] [] [] in
  let order := Order.mk order_id user_id (lit "pending") 100%float t2 in
  let db2 := mkDatabase (users db1) [] (orders db1 ++ [order]) [] in
  let db3 := delete_user user_id db2 in
  let orphaned_orders := fst (test_no_orphaned_orders db3) in
  if negb (len orphaned_orders =? 1) then (Failed, db3)
  else match orphaned_orders with
       | o :: _ =>
           if negb (Order.id o =? order_id) then (Failed, db3)
           else (Passed, delete_order order_id db3)
       | [] => (Failed, db3)                        (* IndexError *)
       end.

End Deletion.

Definition crate : Product.t :=
  Product.mk 3 (lit "Crate") (lit "SKU-000003") 12.5%float 0 0.

Definition shelf : DataIntegrity.Database :=
  DataIntegrity.mkDatabase [] [kettle; crate] [] [].

Definition paid_order : Order.t := Order.mk 31 1 (lit "completed") 74.25%float 500.

(** Users whose emails differ only in case, and one who stands alone. *)
Definition crowd_of_three : list User.t := [jane_upper; jane; jane_lower].

(** A third order of the same user, for another amount, between the two
    clicks. *)
Definition between_clicks : Order.t :=
  Order.mk 24 5 (lit "pending") 12%float 11000000.

(** An address with a tab inside and one with a space in front. *)
Definition tabbed : User.t :=
  User.mk 41 (lit "Tab") (lit "a" ++ ["009"%char] ++ lit "b@example.com") 0 true None.
Definition padded : User.t :=
  User.mk 42 (lit "Pad") (lit " pad@example.com") 0 true None.

(** Two addresses that differ in the case of a letter outside ASCII. *)
Definition agnes_upper : User.t :=
  User.mk 51 (lit "Agnes") ("192"%char :: lit "gnes@example.com") 0 true None.
Definition agnes_lower : User.t :=
  User.mk 52 (lit "Agnes") ("224"%char :: lit "gnes@example.com") 0 true None.

(** ** The [sample_users] fixture ([tests/conftest.py])

    The fixture asks Faker and [random] for its values and the database
    for the keys; the model takes what they answer at the [i]-th turn of
    the loop as functions of [i]. *)

Module Fixtures.

Record Answers : Type := mkAnswers {
  fake_name : nat -> str;            (* fake.name() *)
  fake_email : nat -> str;           (* fake.email() *)
  randint_18_80 : nat -> Z;          (* random.randint(18, 80) *)
  new_id : nat -> Z;                 (* the key given at commit *)
  new_created_at : nat -> Z          (* the created_at default *)
}.

(** [random.randint(18, 80)] returns an integer in that range. *)
Definition randint_in_range (a : Answers) : Prop :=
  forall i, 18 <= randint_18_80 a i <= 80.

Definition sample_users (a : Answers) : list User.t :=
  map (fun i =>
         User.mk (new_id a i) (fake_name a i) (fake_email a i)
                 (new_created_at a i) true (Some (randint_18_80 a i)))
      (seq 0 5).

Definition steady : Answers :=
  mkAnswers (fun _ => lit "Lee Poe")
            (fun i => lit "lee" ++ [ascii_of_nat (48 + i)] ++ lit "@example.net")
            (fun i => Z.min (18 + Z.of_nat i) 80) (fun i => 1 + Z.of_nat i)
            (fun _ => 0).

End Fixtures.
(** * Properties *)

(** ** Lists and verdicts *)

Lemma assert_none_passed {A : Type} (l : list A) :
  assert_none l = Passed <-> l = [].
Proof. destruct l; simpl; split; congruence. Qed.

Lemma assert_none_failed {A : Type} (l : list A) :
  assert_none l = Failed <-> l <> [].
Proof. destruct l; simpl; split; congruence. Qed.

Lemma flat_map_nil {A B : Type} (f : A -> list B) (l : list A) :
  flat_map f l = [] <-> forall x, In x l -> f x = [].
Proof.
  induction l as [|a l IH]; simpl.
  - split; [intros _ x []|reflexivity].
  - split.
    + intros H. apply app_eq_nil in H as [Ha Hl].
      intros x [<-|Hx]; [assumption|]. now apply IH.
    + intros H. rewrite (H a (or_introl eq_refl)). simpl.
      apply IH. intros x Hx. apply H. now right.
Qed.


(** ** Integers as floats *)

(** On the unsigned 63-bit integers [float_of_int] is the conversion of the
    machine. *)
Lemma float_of_int_uint63 (z : Z) :
  0 <= z < 2 ^ 63 ->
  float_of_int z = PrimFloat.of_uint63 (Uint63.of_Z z).
Proof.
  intros H. unfold float_of_int.
  rewrite <- (FloatAxioms.SF2Prim_Prim2SF (PrimFloat.of_uint63 (Uint63.of_Z z))).
  rewrite FloatAxioms.of_uint63_spec, Uint63.of_Z_spec.
  rewrite Z.mod_small; [reflexivity|]. exact H.
Qed.

(** The ends of the 64-bit range, and the first integer that is rounded. *)
Lemma float_of_int_int64 :
  float_of_int (- 2 ^ 63) = (-9223372036854775808)%float /\
  float_of_int (2 ^ 63 - 1) = 9223372036854775808%float /\
  float_of_int (2 ^ 53 + 1) = 9007199254740992%float.
Proof. repeat split; vm_compute; reflexivity. Qed.
(** ** Facts about strings *)

Lemma str_eqb_eq (a b : str) : str_eqb a b = true <-> a = b.
Proof.
  unfold str_eqb. destruct (list_eq_dec ascii_dec a b); split; congruence.
Qed.

Lemma str_eqb_refl (a : str) : str_eqb a a = true.
Proof. now apply str_eqb_eq. Qed.

Lemma contains_app (c : ascii) (a b : str) :
  contains c (a ++ b) = contains c a || contains c b.
Proof. unfold contains. apply existsb_app. Qed.


Lemma split_without (sep : ascii) (s : str) :
  contains sep s = false -> split sep s = [s].
Proof.
  induction s as [|c s IH]; simpl; [reflexivity|].
  rewrite Ascii.eqb_sym. intros H. apply orb_false_iff in H as [Hc Hs].
  rewrite Hc, (IH Hs). reflexivity.
Qed.

Lemma split_at_first (sep : ascii) (a b : str) :
  contains sep a = false -> split sep (a ++ sep :: b) = a :: split sep b.
Proof.
  induction a as [|c a IH]; simpl.
  - intros _. now rewrite Ascii.eqb_refl.
  - rewrite Ascii.eqb_sym. intros H. apply orb_false_iff in H as [Hc Ha].
    rewrite Hc, (IH Ha). reflexivity.
Qed.

Lemma lstrip_nonspace (c : ascii) (s : str) :
  isspace c = false -> lstrip (c :: s) = c :: s.
Proof. intros H. simpl. now rewrite H. Qed.

Lemma rstrip_nonspace (s : str) (c : ascii) :
  isspace c = false -> rstrip (s ++ [c]) = s ++ [c].
Proof.
  intros H. unfold rstrip. rewrite rev_app_distr. simpl.
  rewrite H. simpl. now rewrite rev_involutive.
Qed.

Lemma rstrip_space (s : str) (c : ascii) :
  isspace c = true -> rstrip (s ++ [c]) = rstrip s.
Proof.
  intros H. unfold rstrip. rewrite rev_app_distr. simpl. now rewrite H.
Qed.

(** ** Correctness of the matcher *)

Lemma cat_inv (r1 r2 : re) (s : str) :
  Matches (Cat r1 r2) s ->
  exists s1 s2, s = s1 ++ s2 /\ Matches r1 s1 /\ Matches r2 s2.
Proof. intros H. inversion H; subst. eauto. Qed.

Lemma alt_inv (r1 r2 : re) (s : str) :
  Matches (Alt r1 r2) s -> Matches r1 s \/ Matches r2 s.
Proof. intros H. inversion H; subst; auto. Qed.

Lemma class_inv (p : ascii -> bool) (s : str) :
  Matches (Chr p) s -> exists c, s = [c] /\ p c = true.
Proof. intros H. inversion H; subst. eauto. Qed.

Lemma eps_inv (s : str) : Matches Eps s -> s = [].
Proof. intros H. now inversion H. Qed.

Lemma void_inv (s : str) : ~ Matches Void s.
Proof. intros H. inversion H. Qed.

Lemma cat_cons (r1 r2 : re) (c : ascii) (s1 s2 : str) :
  Matches r1 (c :: s1) -> Matches r2 s2 -> Matches (Cat r1 r2) (c :: s1 ++ s2).
Proof. intros A B. change (c :: s1 ++ s2) with ((c :: s1) ++ s2). now constructor. Qed.

Lemma nullable_spec (r : re) : nullable r = true <-> Matches r [].
Proof.
  induction r as [| |p|r1 IH1 r2 IH2|r1 IH1 r2 IH2|r IH]; simpl; split; intros H.
  - discriminate.
  - now apply void_inv in H.
  - constructor.
  - reflexivity.
  - discriminate.
  - apply class_inv in H as (c & E & _). discriminate.
  - apply andb_true_iff in H as [H1 H2].
    change (@nil ascii) with (@nil ascii ++ []). constructor; tauto.
  - apply cat_inv in H as (s1 & s2 & E & A & B).
    symmetry in E. apply app_eq_nil in E as [-> ->].
    apply andb_true_iff. tauto.
  - apply orb_true_iff in H as [H|H]; [apply MAltL|apply MAltR]; tauto.
  - apply orb_true_iff. apply alt_inv in H. tauto.
  - constructor.
  - reflexivity.
Qed.

Lemma star_cons (r : re) (c : ascii) (s : str) :
  Matches (Star r) (c :: s) ->
  exists s1 s2, s = s1 ++ s2 /\ Matches r (c :: s1) /\ Matches (Star r) s2.
Proof.
  intros H. remember (Star r) as q eqn:Eq. remember (c :: s) as w eqn:Ew.
  revert s Ew.
  induction H as [| | | | | |r' s1 s2 H1 _ H2 IH2]; intros t Ew;
    try discriminate.
  injection Eq as ->. destruct s1 as [|c' s1]; simpl in Ew.
  - now apply IH2.
  - injection Ew as -> <-. exists s1, s2. auto.
Qed.

Lemma deriv_spec (r : re) (c : ascii) (s : str) :
  Matches (deriv c r) s <-> Matches r (c :: s).
Proof.
  revert s. induction r as [| |p|r1 IH1 r2 IH2|r1 IH1 r2 IH2|r IH];
    intros s; simpl.
  - split; intros H; now apply void_inv in H.
  - split; intros H; [now apply void_inv in H|apply eps_inv in H; discriminate].
  - destruct (p c) eqn:Hp; split; intros H.
    + apply eps_inv in H as ->. now constructor.
    + apply class_inv in H as (c' & E & _). injection E as _ ->. constructor.
    + now apply void_inv in H.
    + apply class_inv in H as (c' & E & Hc). injection E as -> _. congruence.
  - assert (Hcat : Matches (Cat (deriv c r1) r2) s ->
                   Matches (Cat r1 r2) (c :: s)).
    { intros H. apply cat_inv in H as (s1 & s2 & -> & A & B).
      apply cat_cons; [now apply IH1|assumption]. }
    assert (Hinv : Matches (Cat r1 r2) (c :: s) ->
                   (Matches r1 [] /\ Matches r2 (c :: s)) \/
                   Matches (Cat (deriv c r1) r2) s).
    { intros H. apply cat_inv in H as (s1 & s2 & E & A & B).
      destruct s1 as [|c' s1]; simpl in E.
      - subst s2. now left.
      - injection E as -> E. subst s. right.
        constructor; [now apply IH1|assumption]. }
    destruct (nullable r1) eqn:Hn; split; intros H.
    + apply alt_inv in H as [H|H]; [now apply Hcat|].
      change (c :: s) with ([] ++ c :: s).
      constructor; [now apply nullable_spec|now apply IH2].
    + apply Hinv in H as [[_ H]|H]; [apply MAltR; now apply IH2|now apply MAltL].
    + now apply Hcat.
    + apply Hinv in H as [[A _]|H]; [|assumption].
      apply nullable_spec in A. congruence.
  - split; intros H; apply alt_inv in H as [H|H];
      solve [apply MAltL; now apply IH1 | apply MAltR; now apply IH2].
  - split; intros H.
    + apply cat_inv in H as (s1 & s2 & -> & A & B).
      change (c :: s1 ++ s2) with ((c :: s1) ++ s2).
      constructor; [now apply IH|assumption].
    + apply star_cons in H as (s1 & s2 & -> & A & B).
      constructor; [now apply IH|assumption].
Qed.

Theorem matchb_spec (r : re) (s : str) : matchb r s = true <-> Matches r s.
Proof.
  revert r. induction s as [|c s IH]; intros r; simpl.
  - apply nullable_spec.
  - rewrite IH. apply deriv_spec.
Qed.

(** Inversion principles for the pattern syntax. *)

Lemma chr_inv (c : ascii) (s : str) : Matches (chr c) s -> s = [c].
Proof.
  intros H. apply class_inv in H as (c' & -> & Hc).
  apply Ascii.eqb_eq in Hc. now subst.
Qed.

Lemma star_class (p : ascii -> bool) (s : str) :
  Matches (Star (Chr p)) s -> Forall (fun c => p c = true) s.
Proof.
  intros H. remember (Star (Chr p)) as q eqn:Eq.
  induction H as [| | | | | |r s1 s2 H1 _ _ IH2]; try discriminate.
  - constructor.
  - injection Eq as ->. apply class_inv in H1 as (c & -> & Hc).
    simpl. constructor; auto.
Qed.

Lemma plus_class (p : ascii -> bool) (s : str) :
  Matches (plus (Chr p)) s ->
  exists c s', s = c :: s' /\ p c = true /\ Forall (fun c => p c = true) s'.
Proof.
  intros H. apply cat_inv in H as (s1 & s2 & -> & H1 & H2).
  apply class_inv in H1 as (c & -> & Hc). apply star_class in H2.
  exists c, s2. auto.
Qed.

Lemma at_least_class (p : ascii -> bool) (n : nat) (s : str) :
  Matches (at_least n (Chr p)) s ->
  Forall (fun c => p c = true) s /\ (n <= List.length s)%nat.
Proof.
  revert s. induction n as [|n IH]; intros s H; simpl in H.
  - split; [now apply star_class|lia].
  - apply cat_inv in H as (s1 & s2 & -> & H1 & H2).
    apply class_inv in H1 as (c & -> & Hc). apply IH in H2 as [F L].
    split; [constructor; assumption|simpl; lia].
Qed.

Lemma dollar_inv (s : str) : Matches dollar s -> s = [] \/ s = ["010"%char].
Proof.
  intros H. apply alt_inv in H as [H|H].
  - left. now apply eps_inv.
  - right. now apply chr_inv.
Qed.


(** ** Email validation *)

Section EmailFacts.
Import EmailValidation.


Ltac norm_app := repeat first [rewrite <- app_assoc | progress simpl].




Lemma match_accepted (s : str) :
  match_anchored email_pattern s = true -> Accepted s.
Proof.
  unfold match_anchored, email_pattern. intros H.
  apply matchb_spec in H.
  apply cat_inv in H as (body & tail & -> & H & Htail).
  apply cat_inv in H as (l & r1 & -> & Hl & H).
  apply cat_inv in H as (a & r2 & -> & Ha & H).
  apply cat_inv in H as (d & r3 & -> & Hd & H).
  apply cat_inv in H as (dot & t & -> & Hdot & Ht).
  apply chr_inv in Ha as ->. apply chr_inv in Hdot as ->.
  apply plus_class in Hl as (c & l' & -> & Hc & Hl').
  apply plus_class in Hd as (c2 & d' & -> & Hc2 & Hd').
  apply at_least_class in Ht as [Ft Lt].
  apply dollar_inv in Htail.
  destruct (exists_last (l := t)) as (t' & z & ->).
  { intros ->. simpl in Lt. lia. }
  apply accepted with (local := c :: l') (domain := c2 :: d') (tld := t')
                      (last := z) (tail := tail); auto; try discriminate.
  now norm_app.
Qed.


Lemma contains_cons (x c : ascii) (s : str) :
  contains x (c :: s) = Ascii.eqb x c || contains x s.
Proof. reflexivity. Qed.

Lemma contains_nil (x : ascii) : contains x [] = false.
Proof. reflexivity. Qed.

Ltac split_contains := rewrite ?contains_app, ?contains_cons, ?contains_nil.







End EmailFacts.

(** ** Suspicious emails *)

Section SuspiciousFacts.
Import EmailValidation.

Lemma find_existsb {A : Type} (f : A -> bool) (l : list A) :
  match find f l with Some _ => true | None => false end = existsb f l.
Proof.
  induction l as [|a l IH]; simpl; [reflexivity|].
  destruct (f a); [reflexivity|exact IH].
Qed.

Lemma suspicious_entry_cases (u : User.t) :
  (is_suspicious u = true /\
   exists pat, suspicious_entry u =
     [mkSuspicious (User.id u) (User.email u) pat
        "Potential fake/test account"]) \/
  (is_suspicious u = false /\ suspicious_entry u = []).
Proof.
  unfold is_suspicious, suspicious_entry, first_pattern.
  rewrite <- find_existsb.
  destruct (find _ suspicious_patterns) as [p|]; [left|right]; eauto.
Qed.

Lemma suspicious_entries (users : list User.t) :
  map (fun f => (s_user_id f, s_email f)) (flat_map suspicious_entry users) =
  map (fun u => (User.id u, User.email u)) (filter is_suspicious users).
Proof.
  induction users as [|u users IH]; simpl; [reflexivity|].
  rewrite map_app, IH.
  destruct (suspicious_entry_cases u) as [[Hs [pat ->]]|[Hs ->]];
    rewrite Hs; reflexivity.
Qed.

Lemma exceeds_tenth_spec (found scanned : Z) :
  exceeds_tenth found scanned = true <-> scanned < 10 * found.
Proof.
  unfold exceeds_tenth. rewrite negb_true_iff, <- not_true_iff_false.
  rewrite Qle_bool_iff. unfold Qle, Qmult, inject_Z, Qnum, Qden. lia.
Qed.

Lemma in_range_from (start : Z) (n : nat) (z : Z) :
  start <= z < start + Z.of_nat n -> In z (range_from start n).
Proof.
  revert start. induction n as [|n IH]; intros start H; simpl; [lia|].
  destruct (Z.eq_dec start z) as [->|Hne]; [now left|].
  right. apply IH. lia.
Qed.

(** Rounding the product to binary64, as CPython does, gives the same
    answer on every population of up to 1000 users. *)
Lemma exceeds_tenth_binary64_agrees (found scanned : Z) :
  0 <= found <= scanned -> scanned <= 1000 ->
  exceeds_tenth_binary64 found scanned = exceeds_tenth found scanned.
Proof.
  intros H1 H2.
  assert (C : forallb (fun n =>
                forallb (fun k =>
                           Bool.eqb
                             (PrimFloat.of_uint63 (Uint63.of_Z n) * 0.1 <?
                              PrimFloat.of_uint63 (Uint63.of_Z k))%float
                             (exceeds_tenth k n))
                        (range_from 0 1001))
              (range_from 0 1001) = true) by (vm_compute; reflexivity).
  rewrite forallb_forall in C.
  specialize (C scanned). rewrite forallb_forall in C.
  unfold exceeds_tenth_binary64. rewrite !float_of_int_uint63 by lia.
  apply Bool.eqb_prop, C; apply in_range_from; lia.
Qed.

(** C7.  [test_email_suspicious_patterns] lists one entry for each user
    whose lowercased email contains a suspicious pattern, and none for the
    others; it fails exactly when the listed users are more than a tenth of
    the scanned ones ([scanned < 10 * flagged]).  With 15 of 100 flagged it
    fails; with 5 of 100 it passes and still lists the 5. *)
Theorem suspicious_email_threshold (sample_users : list User.t) :
  let scanned := len sample_users in
  let flagged := len (filter is_suspicious sample_users) in
  let findings := fst (test_email_suspicious_patterns sample_users) in
  let verdict := snd (test_email_suspicious_patterns sample_users) in
  map (fun f => (s_user_id f, s_email f)) findings =
    map (fun u => (User.id u, User.email u))
        (filter is_suspicious sample_users) /\
  (verdict = Failed <-> scanned < 10 * flagged) /\
  (verdict = Passed <-> 10 * flagged <= scanned) /\
  (scanned = 100 -> flagged = 15 -> verdict = Failed) /\
  (scanned = 100 -> flagged = 5 -> verdict = Passed /\ len findings = 5).
Proof.
  intros scanned flagged findings verdict.
  assert (E : map (fun f => (s_user_id f, s_email f)) findings =
              map (fun u => (User.id u, User.email u))
                  (filter is_suspicious sample_users))
    by apply suspicious_entries.
  assert (L : len findings = flagged).
  { unfold flagged, len. f_equal.
    rewrite <- (length_map (fun f => (s_user_id f, s_email f))), E.
    apply length_map. }
  assert (V : verdict = if exceeds_tenth flagged scanned then Failed else Passed).
  { unfold verdict, test_email_suspicious_patterns. simpl snd.
    change (flat_map suspicious_entry sample_users) with findings.
    now rewrite L. }
  pose proof (exceeds_tenth_spec flagged scanned) as T.
  assert (F : verdict = Failed <-> scanned < 10 * flagged).
  { rewrite V, <- T. destruct (exceeds_tenth flagged scanned);
      split; congruence. }
  assert (P : verdict = Passed <-> 10 * flagged <= scanned).
  { rewrite V. destruct (exceeds_tenth flagged scanned).
    - split; [discriminate|]. intros. assert (true = true) as X by reflexivity.
      apply T in X. lia.
    - split; [|reflexivity]. intros _.
      destruct (Z_lt_le_dec scanned (10 * flagged)) as [X|X];
        [apply T in X; discriminate|lia]. }
  split; [exact E|]. split; [exact F|]. split; [exact P|]. split.
  - intros Hn Hf. apply F. lia.
  - intros Hn Hf. split; [apply P; lia|congruence].
Qed.

Lemma suspicious_email_threshold_witness :
  snd (test_email_suspicious_patterns (crowd 15)) = Failed /\
  snd (test_email_suspicious_patterns (crowd 5)) = Passed /\
  len (fst (test_email_suspicious_patterns (crowd 5))) = 5.
Proof.
  split.
  - apply (proj1 (proj2 (proj2 (proj2 (suspicious_email_threshold (crowd 15))))));
      vm_compute; reflexivity.
  - apply (proj2 (proj2 (proj2 (proj2 (suspicious_email_threshold (crowd 5))))));
      vm_compute; reflexivity.
Defined.

End SuspiciousFacts.

(** ** Value ranges *)

Section RangeFacts.
Import ValueRanges.

Lemma age_fold (users : list User.t) (invalid suspicious : list AgeIssue.t) :
  fold_left age_step users (invalid, suspicious) =
  (invalid ++ flat_map (fun u => fst (age_entries u)) users,
   suspicious ++ flat_map (fun u => snd (age_entries u)) users).
Proof.
  revert invalid suspicious.
  induction users as [|u users IH]; intros invalid suspicious; simpl.
  - now rewrite !app_nil_r.
  - unfold age_entries, age_step at 2 3 4.
    destruct (User.age u) as [age|]; simpl.
    + destruct ((age <? 0) || (age >? 120)); simpl;
        [|destruct (age <? 13); simpl];
        rewrite IH, <- ?app_assoc; reflexivity.
    + apply IH.
Qed.

Lemma age_entries_null (u : User.t) :
  User.age u = None -> age_entries u = ([], []).
Proof. unfold age_entries, age_step. now intros ->. Qed.

Lemma age_entries_origin (u : User.t) (f : AgeIssue.t) :
  In f (fst (age_entries u) ++ snd (age_entries u)) ->
  User.age u = Some (AgeIssue.age f) /\ AgeIssue.user_id f = User.id u.
Proof.
  unfold age_entries, age_step.
  destruct (User.age u) as [age|]; simpl; [|tauto].
  destruct ((age <? 0) || (age >? 120)); simpl;
    [|destruct (age <? 13); simpl]; intros H;
    repeat (destruct H as [H|H]; subst; simpl; auto); tauto.
Qed.

Lemma flat_map_filter_skip {A B : Type} (f : A -> list B) (keep : A -> bool)
  (l : list A) :
  (forall x, keep x = false -> f x = []) ->
  flat_map f (filter keep l) = flat_map f l.
Proof.
  intros H. induction l as [|a l IH]; simpl; [reflexivity|].
  destruct (keep a) eqn:K; simpl; rewrite IH; [reflexivity|].
  now rewrite (H a K).
Qed.

(** C10.  Users without an age take no part in [test_age_in_valid_range]:
    dropping them from the dataset changes neither list nor the verdict,
    every entry of either list comes from a user whose age is set, and the
    test passes as soon as every age that is set lies in [0, 120]. *)
Theorem null_age_never_flagged (sample_users : list User.t) :
  test_age_in_valid_range sample_users =
    test_age_in_valid_range (filter has_age sample_users) /\
  (forall f,
     In f (fst (fst (test_age_in_valid_range sample_users))) \/
     In f (snd (fst (test_age_in_valid_range sample_users))) ->
     exists u, In u sample_users /\
               User.age u = Some (AgeIssue.age f) /\
               AgeIssue.user_id f = User.id u) /\
  ((forall u a, In u sample_users -> User.age u = Some a -> 0 <= a <= 120) ->
   snd (test_age_in_valid_range sample_users) = Passed).
Proof.
  unfold test_age_in_valid_range. rewrite !age_fold. simpl.
  assert (Skip : forall u, has_age u = false -> age_entries u = ([], [])).
  { intros u. unfold has_age.
    destruct (User.age u) eqn:E; [discriminate|].
    intros _. now apply age_entries_null. }
  split; [|split].
  - rewrite !flat_map_filter_skip; auto;
      intros u Hu; now rewrite (Skip u Hu).
  - intros f Hf.
    assert (exists u, In u sample_users /\
                      In f (fst (age_entries u) ++ snd (age_entries u)))
      as (u & Hu & Hin).
    { destruct Hf as [Hf|Hf]; apply in_flat_map in Hf as (u & Hu & Hin);
        exists u; split; auto; apply in_or_app; auto. }
    exists u. split; [assumption|]. now apply age_entries_origin.
  - intros Hrange. apply assert_none_passed, flat_map_nil. intros u Hu.
    unfold age_entries, age_step.
    destruct (User.age u) as [age|] eqn:E; [|reflexivity].
    specialize (Hrange u age Hu E).
    replace ((age <? 0) || (age >? 120)) with false by lia.
    destruct (age <? 13); reflexivity.
Qed.

Lemma null_age_never_flagged_witness :
  snd (test_age_in_valid_range [no_age 1; aged 2 40; no_age 3; aged 4 7])
  = Passed.
Proof.
  apply (null_age_never_flagged [no_age 1; aged 2 40; no_age 3; aged 4 7]).
  intros u a [<-|[<-|[<-|[<-|[]]]]]; simpl; intros E;
    try discriminate; injection E as <-; lia.
Defined.

Lemma price_issue_none (p : Product.t) :
  price_issue p = [] <->
  (Product.price p <? 0)%float = false /\
  (Product.price p =? 0)%float = false /\
  (1000000 <? Product.price p)%float = false.
Proof.
  unfold price_issue.
  destruct (Product.price p <? 0)%float;
    [split; [discriminate|intros (? & _); discriminate]|].
  destruct (Product.price p =? 0)%float;
    [split; [discriminate|intros (_ & ? & _); discriminate]|].
  destruct (1000000 <? Product.price p)%float;
    [split; [discriminate|intros (_ & _ & ?); discriminate]|].
  tauto.
Qed.

(** Two floats that compare equal are not ordered strictly, and are
    ordered weakly. *)
Lemma float_eqb_order (x y : float) :
  (x =? y)%float = true -> (x <? y)%float = false /\ (x <=? y)%float = true.
Proof.
  rewrite FloatAxioms.eqb_spec, FloatAxioms.ltb_spec, FloatAxioms.leb_spec.
  unfold SpecFloat.SFeqb, SpecFloat.SFltb, SpecFloat.SFleb.
  destruct (SpecFloat.SFcompare (FloatOps.Prim2SF x) (FloatOps.Prim2SF y))
    as [[| |]|];
    intros H; try discriminate. split; reflexivity.
Qed.

(** C1, as amended.  [test_price_in_valid_range] puts a zero price in the
    same [invalid_prices] list as a negative price or one above
    1,000,000, and passes exactly when that list is empty: a dataset with
    a product priced 0 fails it, the entry reading "Zero price (verify
    intentional)"; [test_negative_price_detection] fails on it as well. *)
Theorem zero_price_fails (sample_products : list Product.t) :
  (snd (test_price_in_valid_range sample_products) = Passed <->
   forall p, In p sample_products ->
     (Product.price p <? 0)%float = false /\
     (Product.price p =? 0)%float = false /\
     (1000000 <? Product.price p)%float = false) /\
  (forall p, In p sample_products -> (Product.price p =? 0)%float = true ->
     In (PriceIssue.mk (Product.id p) (Product.name p) (Product.price p)
           "Zero price (verify intentional)")
        (fst (test_price_in_valid_range sample_products)) /\
     snd (test_price_in_valid_range sample_products) = Failed /\
     forall db, DataIntegrity.products db = sample_products ->
                snd (DataIntegrity.test_negative_price_detection db) = Failed).
Proof.
  unfold test_price_in_valid_range. simpl. split.
  - rewrite assert_none_passed, flat_map_nil.
    split; intros H p Hp; apply price_issue_none; auto.
  - intros p Hp Hz. destruct (float_eqb_order _ _ Hz) as [Hn Hle].
    assert (In (PriceIssue.mk (Product.id p) (Product.name p)
                  (Product.price p) "Zero price (verify intentional)")
               (flat_map price_issue sample_products)) as Hin.
    { apply in_flat_map. exists p. split; [assumption|].
      unfold price_issue. rewrite Hn, Hz. now left. }
    split; [assumption|]. split.
    + apply assert_none_failed. intros E. rewrite E in Hin. contradiction.
    + intros db <-. unfold DataIntegrity.test_negative_price_detection. simpl.
      apply assert_none_failed. intros E.
      assert (In p (filter (fun q => (Product.price q <=? 0)%float)
                           (DataIntegrity.products db))) as Hf
        by (apply filter_In; auto).
      rewrite E in Hf. contradiction.
Qed.

Lemma zero_price_fails_witness :
  snd (test_price_in_valid_range [kettle; free_sample]) = Failed.
Proof.
  apply (zero_price_fails [kettle; free_sample]) with (p := free_sample).
  - simpl. auto.
  - vm_compute. reflexivity.
Defined.

(** C1 as stated fails: the zero price of [free_sample] is the only
    anomaly of this dataset, and the test reports failure. *)
Lemma zero_price_is_not_a_warning :
  (Product.price free_sample =? 0)%float = true /\
  ((0 <? Product.price kettle)%float
   && (Product.price kettle <=? 1000000)%float) = true /\
  snd (test_price_in_valid_range [kettle; free_sample]) = Failed.
Proof. vm_compute. repeat split. Qed.

End RangeFacts.

(** ** Referential integrity and order totals *)

Section IntegrityFacts.
Import DataIntegrity.

Lemma filter_nil_existsb {A : Type} (f : A -> bool) (l : list A) :
  filter f l = [] <-> existsb f l = false.
Proof.
  induction l as [|a l IH]; simpl; [tauto|].
  destruct (f a); simpl; [split; discriminate|exact IH].
Qed.

Lemma filter_null_matched {C P : Type} (c : C) (ms : list P) :
  filter parent_is_null (map (fun p => (c, Some p)) ms) = [].
Proof. induction ms as [|m ms IH]; simpl; auto. Qed.

(** The outer join followed by the NULL filter keeps the children that no
    parent matches, each once and in the order of the child table. *)
Lemma orphaned_spec {C P : Type} (on : C -> P -> bool)
  (children : list C) (parents : list P) :
  orphaned on children parents =
  filter (fun c => negb (existsb (on c) parents)) children.
Proof.
  unfold orphaned, outerjoin.
  induction children as [|c cs IH]; [reflexivity|].
  cbn [flat_map filter]. rewrite filter_app, map_app, IH.
  unfold join_rows. destruct (filter (on c) parents) as [|m ms] eqn:E.
  - apply filter_nil_existsb in E. rewrite E. reflexivity.
  - assert (existsb (on c) parents = true) as ->.
    { destruct (existsb (on c) parents) eqn:X; [reflexivity|].
      apply filter_nil_existsb in X. congruence. }
    now rewrite filter_null_matched.
Qed.

Lemma filter_none {A : Type} (f : A -> bool) (l : list A) :
  (forall x, In x l -> f x = false) -> filter f l = [].
Proof.
  induction l as [|a l IH]; simpl; intros H; [reflexivity|].
  rewrite (H a (or_introl eq_refl)). apply IH. intros x Hx. apply H. now right.
Qed.

Lemma filter_one {A : Type} (f : A -> bool) (before after : list A) (a : A) :
  f a = true ->
  (forall x, In x (before ++ after) -> f x = false) ->
  filter f (before ++ a :: after) = [a].
Proof.
  intros Ha H. rewrite filter_app. simpl. rewrite Ha.
  rewrite !filter_none; [reflexivity| |]; intros x Hx; apply H, in_or_app; auto.
Qed.

(** C6 as stated does not hold: a dataset can have exactly one order item
    whose [order_id] matches no order (every other item resolving) and
    still an order whose [user_id] matches no user; the order check then
    returns that order and fails. *)
Lemma orphan_order_beside_orphan_item :
  order_items ownerless_shop = [line_b; stray_line] /\
  (forall o, In o (orders ownerless_shop) ->
             Order.id o <> OrderItem.order_id stray_line) /\
  (exists o, In o (orders ownerless_shop) /\
             Order.id o = OrderItem.order_id line_b) /\
  fst (test_no_orphaned_order_items ownerless_shop) = [stray_line] /\
  fst (test_no_orphaned_orders ownerless_shop) = [order_b] /\
  snd (test_no_orphaned_orders ownerless_shop) = Failed /\
  ~ (forall db before item after,
       order_items db = before ++ item :: after ->
       (forall o, In o (orders db) -> Order.id o <> OrderItem.order_id item) ->
       (forall i, In i (before ++ after) ->
          exists o, In o (orders db) /\ Order.id o = OrderItem.order_id i) ->
       fst (test_no_orphaned_order_items db) = [item] /\
       fst (test_no_orphaned_orders db) = []).
Proof.
  assert (U : forall o, In o (orders ownerless_shop) ->
                        Order.id o <> OrderItem.order_id stray_line).
  { intros o [<-|[]]. vm_compute. congruence. }
  assert (M : forall i, In i ([line_b] ++ []) ->
                exists o, In o (orders ownerless_shop) /\
                          Order.id o = OrderItem.order_id i).
  { intros i [<-|[]]. exists order_b. split; [now left|reflexivity]. }
  split; [reflexivity|]. split; [exact U|]. split.
  { apply M. now left. }
  split; [reflexivity|]. split; [reflexivity|]. split; [reflexivity|].
  intros H.
  destruct (H ownerless_shop [line_b] stray_line [] eq_refl U M) as [_ E].
  vm_compute in E. discriminate E.
Qed.

(** C6, amended.  Each orphan check returns the child records whose foreign
    key equals no parent id, each once and in table order, and nothing
    else; it fails exactly when there is one.  In a dataset with exactly
    one order item whose [order_id] matches no order, the item check
    returns that item alone and fails.  The order check does not look at
    the order items: it returns the orders whose [user_id] matches no user,
    hence nothing exactly when every order has its user. *)
Theorem orphan_detection (db : Database) :
  fst (test_no_orphaned_orders db) =
    filter (fun o => negb (existsb (fun u => Order.user_id o =? User.id u)
                                   (users db))) (orders db) /\
  fst (test_no_orphaned_order_items db) =
    filter (fun i => negb (existsb (fun o => OrderItem.order_id i =? Order.id o)
                                   (orders db))) (order_items db) /\
  fst (test_no_orphaned_order_items_products db) =
    filter (fun i => negb (existsb (fun p => OrderItem.product_id i =? Product.id p)
                                   (products db))) (order_items db) /\
  (forall i, In i (fst (test_no_orphaned_order_items db)) <->
             In i (order_items db) /\
             forall o, In o (orders db) -> Order.id o <> OrderItem.order_id i) /\
  (forall o, In o (fst (test_no_orphaned_orders db)) <->
             In o (orders db) /\
             forall u, In u (users db) -> User.id u <> Order.user_id o) /\
  (snd (test_no_orphaned_order_items db) = Failed <->
   fst (test_no_orphaned_order_items db) <> []) /\
  (snd (test_no_orphaned_orders db) = Failed <->
   fst (test_no_orphaned_orders db) <> []) /\
  (forall before item after,
     order_items db = before ++ item :: after ->
     (forall o, In o (orders db) -> Order.id o <> OrderItem.order_id item) ->
     (forall i, In i (before ++ after) ->
        exists o, In o (orders db) /\ Order.id o = OrderItem.order_id i) ->
     fst (test_no_orphaned_order_items db) = [item] /\
     snd (test_no_orphaned_order_items db) = Failed) /\
  (forall other_items,
     test_no_orphaned_orders
       (mkDatabase (users db) (products db) (orders db) other_items) =
     test_no_orphaned_orders db) /\
  (fst (test_no_orphaned_orders db) = [] <->
   forall o, In o (orders db) ->
             exists u, In u (users db) /\ User.id u = Order.user_id o) /\
  (snd (test_no_orphaned_orders db) = Passed <->
   forall o, In o (orders db) ->
             exists u, In u (users db) /\ User.id u = Order.user_id o).
Proof.
  assert (Verdict_passed : forall {A : Type} (l : list A),
            assert_none l = Passed <-> l = []).
  { intros A [|a l]; simpl; split; congruence. }
  unfold test_no_orphaned_orders, test_no_orphaned_order_items,
    test_no_orphaned_order_items_products. simpl.
  rewrite !orphaned_spec.
  assert (Unmatched : forall {A : Type} (key : A -> Z) (k : Z) (l : list A),
            negb (existsb (fun a => k =? key a) l) = true <->
            forall a, In a l -> key a <> k).
  { intros A key k l. rewrite negb_true_iff, <- not_true_iff_false, existsb_exists.
    split.
    - intros H a Ha E. apply H. exists a. split; [assumption|]. lia.
    - intros H (a & Ha & E). apply (H a Ha). lia. }
  assert (Resolved :
            filter (fun o => negb (existsb (fun u => Order.user_id o =? User.id u)
                                     (users db))) (orders db) = [] <->
            forall o, In o (orders db) ->
                      exists u, In u (users db) /\ User.id u = Order.user_id o).
  { split.
    - intros E o Ho.
      destruct (existsb (fun u => Order.user_id o =? User.id u) (users db)) eqn:X.
      + apply existsb_exists in X. destruct X as (u & Hu & Eu).
        exists u. split; [assumption|]. lia.
      + assert (In o []) as [].
        rewrite <- E. apply filter_In. split; [assumption|]. now rewrite X.
    - intros H. apply filter_none. intros o Ho. apply not_true_iff_false.
      intros T.
      pose proof (proj1 (Unmatched _ User.id (Order.user_id o) (users db)) T)
        as T'.
      destruct (H o Ho) as (u & Hu & Eu). now apply (T' u Hu). }
  split; [reflexivity|]. split; [reflexivity|]. split; [reflexivity|].
  split; [|split; [|split; [|split; [|split; [|split; [|split]]]]]].
  - intros i. rewrite filter_In, (Unmatched _ Order.id). tauto.
  - intros o. rewrite filter_In, (Unmatched _ User.id). tauto.
  - apply assert_none_failed.
  - apply assert_none_failed.
  - intros before item after E Hitem Hrest.
    assert (Hi : filter (fun i => negb (existsb (fun o => OrderItem.order_id i =? Order.id o)
                                   (orders db))) (order_items db) = [item]).
    { rewrite E. apply filter_one.
      - now apply (Unmatched _ Order.id).
      - intros x Hx. apply not_true_iff_false. intros T.
        pose proof (proj1 (Unmatched _ Order.id (OrderItem.order_id x)
                             (orders db)) T) as T'.
        destruct (Hrest x Hx) as (o & Ho & Eo). now apply (T' o Ho). }
    rewrite Hi. split; reflexivity.
  - intros other_items. reflexivity.
  - exact Resolved.
  - rewrite Verdict_passed. exact Resolved.
Qed.

Lemma orphan_detection_witness :
  (fst (test_no_orphaned_order_items shop) = [stray_line] /\
   snd (test_no_orphaned_order_items shop) = Failed) /\
  fst (test_no_orphaned_orders shop) = [].
Proof.
  destruct (orphan_detection shop) as (_ & _ & _ & _ & _ & _ & _ & S & _ & R & _).
  split.
  - apply (S [line_b] stray_line []).
    + reflexivity.
    + intros o [<-|[]]. vm_compute. congruence.
    + intros i [<-|[]]. exists order_b. split; [now left|reflexivity].
  - apply (proj2 R). intros o [<-|[]]. exists jane. split; [now left|reflexivity].
Defined.




End IntegrityFacts.

(** ** Duplicates *)

Section DuplicateFacts.
Import Duplicates.

Lemma count_perm {A : Type} (f : A -> bool) (l l' : list A) :
  Permutation l l' -> len (filter f l) = len (filter f l').
Proof.
  unfold len. intros H. f_equal.
  induction H as [|x l l' _ IH|x y l|l l' l'' _ IH1 _ IH2]; simpl.
  - reflexivity.
  - destruct (f x); simpl; congruence.
  - destruct (f x), (f y); reflexivity.
  - congruence.
Qed.

Lemma count_keys {A : Type} (key : A -> str) (e : str) (l : list A) :
  len (filter (str_eqb e) (map key l)) =
  len (filter (fun a => str_eqb e (key a)) l).
Proof.
  unfold len. f_equal. induction l as [|a l IH]; simpl; [reflexivity|].
  destruct (str_eqb e (key a)); simpl; congruence.
Qed.

Lemma count_positive (e : str) (keys : list str) :
  0 < len (filter (str_eqb e) keys) -> In e keys.
Proof.
  unfold len. induction keys as [|k keys IH]; simpl; [lia|].
  destruct (str_eqb e k) eqn:E.
  - apply str_eqb_eq in E. auto.
  - auto.
Qed.

Lemma count_nodup (e : str) (keys : list str) :
  NoDup keys -> len (filter (str_eqb e) keys) <= 1.
Proof.
  unfold len. induction 1 as [|k keys Hk _ IH]; simpl; [lia|].
  destruct (str_eqb e k) eqn:E; [|exact IH].
  apply str_eqb_eq in E. subst k.
  destruct (filter (str_eqb e) keys) as [|x l] eqn:F; [simpl; lia|].
  exfalso. apply Hk.
  assert (In x (filter (str_eqb e) keys)) as Hx by (rewrite F; now left).
  apply filter_In in Hx as [Hx Ex]. apply str_eqb_eq in Ex. now subst.
Qed.

Lemma in_group_count (keys : list str) (e : str) (n : Z) :
  In (e, n) (group_count keys) <->
  In e keys /\ n = len (filter (str_eqb e) keys).
Proof.
  unfold group_count. rewrite in_map_iff. split.
  - intros (k & E & Hk). injection E as -> <-.
    apply nodup_In in Hk. auto.
  - intros (Hk & ->). exists e. split; [reflexivity|]. now apply nodup_In.
Qed.

Lemma group_keys (keys : list str) :
  map fst (group_count keys) = nodup str_dec keys.
Proof.
  unfold group_count. rewrite map_map. simpl. apply map_id.
Qed.

(** Rows with pairwise distinct keys keep them when some are dropped. *)
Lemma kept_rows_distinct {K R : Type} (keep : R -> bool) (key : R -> K)
  (rows : list R) :
  NoDup (map key rows) -> NoDup (map key (filter keep rows)).
Proof.
  intros H. induction rows as [|r rows IH]; simpl; [constructor|].
  simpl in H. apply NoDup_cons_iff in H as [Hr Hrows].
  destruct (keep r); simpl; [|auto].
  constructor; [|auto]. intros Hin. apply Hr.
  apply in_map_iff in Hin as (x & Ex & Hx). apply filter_In in Hx as [Hx _].
  apply in_map_iff. eauto.
Qed.

Lemma singleton_list {A : Type} (l : list A) (a : A) :
  NoDup l -> In a l -> (forall x, In x l -> x = a) -> l = [a].
Proof.
  intros N Ha All. destruct l as [|x l]; [contradiction|].
  assert (x = a) as -> by (apply All; now left).
  destruct l as [|y l]; [reflexivity|].
  assert (y = a) as -> by (apply All; right; now left).
  apply NoDup_cons_iff in N as [N _]. exfalso. apply N. now left.
Qed.

(** C5.  [test_no_duplicate_emails] groups the users by lowercased email
    and returns, once each, the groups that have more than one member,
    with their size; it fails when there is such a group.  When exactly
    two users carry [Jane@Example.com] and [jane@example.com] and the
    lowercased emails are otherwise distinct, it returns that one group,
    of size 2. *)
Theorem duplicate_emails (users : list User.t) :
  (forall e n,
     In (e, n) (fst (test_no_duplicate_emails users)) <->
     n = len (filter (fun u => str_eqb e (sql_lower (User.email u))) users) /\
     1 < n) /\
  NoDup (map fst (fst (test_no_duplicate_emails users))) /\
  (snd (test_no_duplicate_emails users) = Failed <->
   fst (test_no_duplicate_emails users) <> []) /\
  (forall u1 u2 others,
     Permutation users (u1 :: u2 :: others) ->
     User.email u1 = lit "Jane@Example.com" ->
     User.email u2 = lit "jane@example.com" ->
     NoDup (map (fun u => sql_lower (User.email u)) (u2 :: others)) ->
     fst (test_no_duplicate_emails users) = [(lit "jane@example.com", 2)] /\
     snd (test_no_duplicate_emails users) = Failed).
Proof.
  unfold test_no_duplicate_emails. simpl.
  set (key := fun u => sql_lower (User.email u)).
  set (duplicates := having_many (group_count (map key users))).
  assert (Spec : forall e n,
     In (e, n) duplicates <->
     n = len (filter (fun u => str_eqb e (key u)) users) /\ 1 < n).
  { intros e n. unfold duplicates, having_many.
    rewrite filter_In, in_group_count, count_keys. simpl. split.
    - intros [[_ ->] H]. split; [reflexivity|lia].
    - intros [-> H]. repeat split; [|lia].
      apply count_positive. rewrite count_keys. lia. }
  assert (Keys : NoDup (map fst duplicates)).
  { unfold duplicates, having_many. apply kept_rows_distinct.
    rewrite group_keys. apply NoDup_nodup. }
  split; [exact Spec|]. split; [exact Keys|].
  split; [apply assert_none_failed|].
  intros u1 u2 others Perm E1 E2 Distinct.
  set (jane := lit "jane@example.com").
  assert (K1 : key u1 = jane) by (unfold key; rewrite E1; reflexivity).
  assert (K2 : key u2 = jane) by (unfold key; rewrite E2; reflexivity).
  assert (Count : forall e,
            len (filter (fun u => str_eqb e (key u)) users) =
            (if str_eqb e jane then 1 else 0) +
            len (filter (fun u => str_eqb e (key u)) (u2 :: others))).
  { intros e. rewrite (count_perm _ _ _ Perm).
    unfold len. cbn [filter]. rewrite K1.
    destruct (str_eqb e jane); cbn [List.length]; lia. }
  assert (Rest : forall e,
            len (filter (fun u => str_eqb e (key u)) (u2 :: others)) <= 1).
  { intros e. rewrite <- count_keys. now apply count_nodup. }
  assert (Two : len (filter (fun u => str_eqb jane (key u)) users) = 2).
  { rewrite Count, str_eqb_refl. specialize (Rest jane).
    unfold len in *. cbn [filter] in *. rewrite K2, str_eqb_refl in *.
    cbn [List.length] in *. lia. }
  assert (Only : duplicates = [(jane, 2)]).
  { apply singleton_list.
    - now apply NoDup_map_inv in Keys.
    - apply Spec. rewrite Two. split; [reflexivity|lia].
    - intros [e n] H. apply Spec in H as [-> H].
      rewrite Count in H |- *. specialize (Rest e).
      destruct (str_eqb e jane) eqn:E; [|lia].
      apply str_eqb_eq in E. subst e. rewrite <- Two, Count, str_eqb_refl.
      reflexivity. }
  rewrite Only. split; reflexivity.
Qed.

Lemma duplicate_emails_witness :
  fst (test_no_duplicate_emails [jane_upper; jane; jane_lower]) =
  [(lit "jane@example.com", 2)].
Proof.
  apply (proj2 (proj2 (proj2 (duplicate_emails [jane_upper; jane; jane_lower])))
           jane_upper jane_lower [jane]).
  - apply perm_skip, perm_swap.
  - reflexivity.
  - reflexivity.
  - repeat constructor; simpl; intros H;
      repeat (destruct H as [H|H]; try discriminate); assumption.
Defined.

End DuplicateFacts.

(** ** Near-duplicate orders *)

Section OrderFacts.
Import Duplicates.

Lemma key_ltb_false (a b : Order.t) : key_ltb a b = false -> key_le b a.
Proof. unfold key_ltb, key_le. lia. Qed.

Lemma key_ltb_true (a b : Order.t) : key_ltb a b = true -> key_le a b.
Proof. unfold key_ltb, key_le. lia. Qed.

Lemma insert_row_perm (o : Order.t) (l : list Order.t) :
  Permutation (insert_row o l) (o :: l).
Proof.
  induction l as [|x l IH]; simpl; [reflexivity|].
  destruct (key_ltb o x); [reflexivity|].
  rewrite IH. apply perm_swap.
Qed.

Lemma insert_row_hd (o x : Order.t) (l : list Order.t) :
  key_le x o -> HdRel key_le x l -> HdRel key_le x (insert_row o l).
Proof.
  intros Hxo H. destruct l as [|y l]; simpl.
  - now constructor.
  - inversion H; subst. destruct (key_ltb o y); now constructor.
Qed.

Lemma insert_row_sorted (o : Order.t) (l : list Order.t) :
  Sorted key_le l -> Sorted key_le (insert_row o l).
Proof.
  induction 1 as [|x l Hs IH Hd]; simpl.
  - repeat constructor.
  - destruct (key_ltb o x) eqn:E.
    + constructor; [now constructor|]. constructor. now apply key_ltb_true.
    + constructor; [assumption|].
      apply insert_row_hd; [now apply key_ltb_false|assumption].
Qed.

Lemma order_by_fold (orders acc : list Order.t) :
  Sorted key_le acc ->
  Sorted key_le (fold_left (fun sorted o => insert_row o sorted) orders acc) /\
  Permutation (fold_left (fun sorted o => insert_row o sorted) orders acc)
              (orders ++ acc).
Proof.
  revert acc. induction orders as [|o orders IH]; intros acc Hs; simpl.
  - split; [assumption|reflexivity].
  - destruct (IH (insert_row o acc) (insert_row_sorted o acc Hs)) as [S P].
    split; [assumption|]. rewrite P, insert_row_perm.
    symmetry. apply Permutation_middle.
Qed.


Lemma similar_spec (o1 o2 : Order.t) :
  similar o1 o2 = true <->
  Order.user_id o1 = Order.user_id o2 /\
  (Order.total_amount o1 =? Order.total_amount o2)%float = true /\
  Z.abs (Order.created_at o1 - Order.created_at o2) < 60000000.
Proof.
  unfold similar. rewrite !andb_true_iff, Z.eqb_eq, Z.ltb_lt. tauto.
Qed.



End OrderFacts.

(** ** Constraint probes *)

Section ProbeFacts.
Import Session.

Variable accepts : list Row -> Row -> bool.

(** Committing a single pending row. *)
Lemma commit_one (db : list Row) (row : Row) :
  commit accepts (mk db [row]) =
  if accepts db row then (Ok tt, mk (db ++ [row]) [])
  else (Raise Error, mk db [row]).
Proof. unfold commit. simpl. destruct (accepts db row); reflexivity. Qed.

(** The common shape of the three probes that call [pytest.fail]. *)
Lemma must_reject_run (db : list Row) (row : Row) (reason : string) :
  bind (add row) (fun _ =>
    try_except (bind (commit accepts) (fun _ => pytest_fail reason)) rollback)
    (mk db []) =
  if accepts db row then (Raise (TestFailed reason), mk (db ++ [row]) [])
  else (Ok tt, mk db []).
Proof.
  unfold bind, try_except, add. simpl.
  rewrite commit_one. destruct (accepts db row); reflexivity.
Qed.

Lemma fk_probe_run (db : list Row) :
  test_cannot_insert_order_with_invalid_user_id accepts (mk db []) =
  (Ok tt, mk (if accepts db fk_order then db ++ [fk_order] else db) []).
Proof.
  unfold test_cannot_insert_order_with_invalid_user_id, bind, try_except, add.
  simpl. rewrite commit_one. destruct (accepts db fk_order); reflexivity.
Qed.

Lemma null_probe_run (db : list Row) :
  test_null_required_fields_rejected accepts (mk db []) =
  if accepts db missing_name
  then (Raise (TestFailed "Should reject NULL in required fields"),
        mk (db ++ [missing_name]) [])
  else if accepts db missing_email
  then (Raise (TestFailed "Should reject NULL in required fields"),
        mk (db ++ [missing_email]) [])
  else (Ok tt, mk db []).
Proof.
  unfold test_null_required_fields_rejected. cbn [for_each].
  unfold bind at 1. rewrite must_reject_run.
  destruct (accepts db missing_name); [reflexivity|].
  unfold bind at 1. rewrite must_reject_run.
  destruct (accepts db missing_email); reflexivity.
Qed.

Lemma email_probe_run (db : list Row) (u : User.t) (others : list User.t) :
  test_duplicate_email_rejected accepts (u :: others) (mk db []) =
  if accepts db (duplicate_user u)
  then (Raise (TestFailed "UNIQUE constraint not enforced on email"),
        mk (db ++ [duplicate_user u]) [])
  else (Ok tt, mk db []).
Proof.
  unfold test_duplicate_email_rejected, first. unfold bind at 1, ret.
  apply must_reject_run.
Qed.

Lemma sku_probe_run (db : list Row) (p : Product.t) (others : list Product.t) :
  test_duplicate_sku_rejected accepts (p :: others) (mk db []) =
  if accepts db (duplicate_product p)
  then (Raise (TestFailed "UNIQUE constraint not enforced on SKU"),
        mk (db ++ [duplicate_product p]) [])
  else (Ok tt, mk db []).
Proof.
  unfold test_duplicate_sku_rejected, first. unfold bind at 1, ret.
  apply must_reject_run.
Qed.

Lemma fresh_session (s : t) : pending s = [] -> s = mk (committed s) [].
Proof. destruct s as [db p]. simpl. now intros ->. Qed.

(** C2, as amended.  On a session with nothing pending: the uniqueness
    and NOT NULL probes fail exactly when the database accepts the
    offending row; the foreign-key probe passes whether or not the
    database accepts the order that references no user. *)
Theorem probe_outcomes (s : t) :
  pending s = [] ->
  fst (run (test_cannot_insert_order_with_invalid_user_id accepts) s) = Passed /\
  (forall existing_user others,
     fst (run (test_duplicate_email_rejected accepts (existing_user :: others)) s)
       = Failed <->
     accepts (committed s) (duplicate_user existing_user) = true) /\
  (forall existing_product others,
     fst (run (test_duplicate_sku_rejected accepts (existing_product :: others)) s)
       = Failed <->
     accepts (committed s) (duplicate_product existing_product) = true) /\
  (fst (run (test_null_required_fields_rejected accepts) s) = Failed <->
   accepts (committed s) missing_name = true \/
   accepts (committed s) missing_email = true).
Proof.
  intros Hs. rewrite (fresh_session s Hs). simpl committed.
  set (db := committed s). unfold run.
  split; [|split; [|split]].
  - now rewrite fk_probe_run.
  - intros u others. rewrite email_probe_run.
    destruct (accepts db (duplicate_user u)); simpl; split; congruence.
  - intros p others. rewrite sku_probe_run.
    destruct (accepts db (duplicate_product p)); simpl; split; congruence.
  - rewrite null_probe_run.
    destruct (accepts db missing_name); simpl; [split; auto|].
    destruct (accepts db missing_email); simpl; [split; auto|].
    split; [discriminate|]. intros [H|H]; discriminate.
Qed.

(** C3 at the inputs where it fails.  After the foreign-key probe and the
    fixture's rollback the session has nothing pending, and the database
    is unchanged when it refused the order; when it accepted the order,
    the order stays in the database, because [commit] had made it
    durable before [rollback] ran.  The same holds for the row of the
    duplicate-SKU probe. *)
Theorem accepted_row_persists (s : t) :
  pending s = [] ->
  (let after := snd (run (test_cannot_insert_order_with_invalid_user_id accepts) s) in
   pending after = [] /\
   (accepts (committed s) fk_order = false -> committed after = committed s) /\
   (accepts (committed s) fk_order = true ->
    committed after = committed s ++ [fk_order])) /\
  (forall existing_product others,
   let row := duplicate_product existing_product in
   let after :=
     snd (run (test_duplicate_sku_rejected accepts (existing_product :: others)) s) in
   pending after = [] /\
   (accepts (committed s) row = false -> committed after = committed s) /\
   (accepts (committed s) row = true -> committed after = committed s ++ [row])).
Proof.
  intros Hs. rewrite (fresh_session s Hs). simpl committed.
  set (db := committed s). unfold run. split.
  - cbv zeta. rewrite fk_probe_run. simpl.
    destruct (accepts db fk_order); repeat split; intros; congruence.
  - intros p others. cbv zeta. rewrite sku_probe_run.
    destruct (accepts db (duplicate_product p)); simpl;
      repeat split; intros; congruence.
Qed.

End ProbeFacts.

Lemma probe_outcomes_witness :
  fst (Session.run
         (Session.test_cannot_insert_order_with_invalid_user_id Session.lenient)
         (Session.mk [Session.jane_row] [])) = Passed /\
  fst (Session.run
         (Session.test_duplicate_email_rejected Session.lenient [jane])
         (Session.mk [Session.jane_row] [])) = Failed.
Proof.
  destruct (probe_outcomes Session.lenient (Session.mk [Session.jane_row] [])
              eq_refl) as (A & B & _).
  split; [exact A|]. now apply B.
Defined.

(** C2 as stated fails: a database that accepts the order with
    [user_id = 99999] although there is no such user, and the probe
    passes. *)
Lemma fk_probe_passes_on_acceptance :
  Session.lenient [Session.jane_row] Session.fk_order = true /\
  Session.run
    (Session.test_cannot_insert_order_with_invalid_user_id Session.lenient)
    (Session.mk [Session.jane_row] []) =
  (Passed, Session.mk [Session.jane_row; Session.fk_order] []).
Proof. split; reflexivity. Qed.

Lemma accepted_row_persists_witness :
  Session.committed
    (snd (Session.run
            (Session.test_cannot_insert_order_with_invalid_user_id Session.lenient)
            (Session.mk [] []))) = [Session.fk_order].
Proof.
  destruct (accepted_row_persists Session.lenient (Session.mk [] []) eq_refl)
    as ((_ & _ & H) & _).
  now apply H.
Defined.

(** ** Comparisons of binary64 values *)

Section FloatOrder.
Import SpecFloat FloatOps.

Lemma SFcompare_swap (a b : spec_float) :
  SFcompare b a = option_map CompOpp (SFcompare a b).
Proof.
  destruct a as [sa|sa| |sa ma ea], b as [sb|sb| |sb mb eb]; simpl;
    try reflexivity;
    try (destruct sa; reflexivity); try (destruct sb; reflexivity);
    try (destruct sa, sb; reflexivity).
  destruct sa, sb; try reflexivity;
    rewrite (Z.compare_antisym ea eb); destruct (ea ?= eb); simpl;
    try reflexivity;
    rewrite ?Pos.compare_cont_antisym; reflexivity.
Qed.

Lemma SFcompare_self (a : spec_float) :
  SFcompare a a = match a with S754_nan => None | _ => Some Eq end.
Proof.
  destruct a as [s|s| |s m e]; simpl; try reflexivity.
  - destruct s; reflexivity.
  - rewrite Z.compare_refl, Pos.compare_cont_refl. destruct s; reflexivity.
Qed.

Lemma SFcompare_none (a b : spec_float) :
  SFcompare a b = None -> a = S754_nan \/ b = S754_nan.
Proof.
  destruct a as [sa|sa| |sa ma ea], b as [sb|sb| |sb mb eb]; simpl;
    intros H; try discriminate; auto.
Qed.

Lemma float_case (x y : float) : (y =? y)%float = true -> FloatCase x y.
Proof.
  intros Hy.
  assert (Ny : Prim2SF y <> S754_nan).
  { rewrite FloatAxioms.eqb_spec in Hy. unfold SFeqb in Hy.
    rewrite SFcompare_self in Hy. intros E. rewrite E in Hy. discriminate. }
  pose proof (SFcompare_swap (Prim2SF x) (Prim2SF y)) as Sw.
  pose proof (SFcompare_self (Prim2SF x)) as Sx.
  destruct (SFcompare (Prim2SF x) (Prim2SF y)) as [[| |]|] eqn:C;
    simpl in Sw.
  - apply IsEqual;
      rewrite ?FloatAxioms.eqb_spec, ?FloatAxioms.ltb_spec, ?FloatAxioms.leb_spec;
      unfold SFeqb, SFltb, SFleb; rewrite ?C, ?Sw, ?Sx; try reflexivity.
    destruct (Prim2SF x); try reflexivity. simpl in C.
    destruct (Prim2SF y); discriminate.
  - apply IsBelow;
      rewrite ?FloatAxioms.eqb_spec, ?FloatAxioms.ltb_spec, ?FloatAxioms.leb_spec;
      unfold SFeqb, SFltb, SFleb; rewrite ?C, ?Sw, ?Sx; try reflexivity.
    destruct (Prim2SF x); try reflexivity. simpl in C.
    destruct (Prim2SF y); discriminate.
  - apply IsAbove;
      rewrite ?FloatAxioms.eqb_spec, ?FloatAxioms.ltb_spec, ?FloatAxioms.leb_spec;
      unfold SFeqb, SFltb, SFleb; rewrite ?C, ?Sw, ?Sx; try reflexivity.
    destruct (Prim2SF x); try reflexivity. simpl in C.
    destruct (Prim2SF y); discriminate.
  - apply SFcompare_none in C as [C|C]; [|contradiction].
    apply IsNaN;
      rewrite ?FloatAxioms.eqb_spec, ?FloatAxioms.ltb_spec, ?FloatAxioms.leb_spec;
      unfold SFeqb, SFltb, SFleb; rewrite ?C; simpl; try reflexivity;
      destruct (Prim2SF y); reflexivity.
Qed.

End FloatOrder.

(** ** Stock, totals, timestamps and statuses *)

Section MoreRangeFacts.
Import RangeChecks.

Lemma stock_fold (products : list Product.t)
  (invalid : list StockIssue.t) (out : list OutOfStock.t) :
  fold_left stock_step products (invalid, out) =
  (invalid ++ flat_map (fun p => fst (stock_entries p)) products,
   out ++ flat_map (fun p => snd (stock_entries p)) products).
Proof.
  revert invalid out.
  induction products as [|p products IH]; intros invalid out; simpl.
  - now rewrite !app_nil_r.
  - unfold stock_entries, stock_step at 2 3 4.
    destruct (Product.stock p <? 0); simpl;
      [|destruct (Product.stock p >? 100000); simpl;
        [|destruct (Product.stock p =? 0); simpl]];
      rewrite IH, <- ?app_assoc; reflexivity.
Qed.

Lemma stock_entries_cases (p : Product.t) :
  (fst (stock_entries p) = [] <-> 0 <= Product.stock p <= 100000) /\
  snd (stock_entries p) =
    if Product.stock p =? 0
    then [OutOfStock.mk (Product.id p) (Product.name p)] else [].
Proof.
  unfold stock_entries, stock_step.
  destruct (Product.stock p <? 0) eqn:A; simpl.
  - split; [split; [discriminate|lia]|].
    replace (Product.stock p =? 0) with false by lia. reflexivity.
  - destruct (Product.stock p >? 100000) eqn:B; simpl.
    + split; [split; [discriminate|lia]|].
      replace (Product.stock p =? 0) with false by lia. reflexivity.
    + destruct (Product.stock p =? 0); simpl; (split; [split; [lia|reflexivity]|reflexivity]).
Qed.

(** X1.  [test_stock_in_valid_range] passes exactly when every stock lies
    in [0, 100000].  A stock of 0 is only listed in [out_of_stock], once
    per product and in the order of the products, and never makes the
    test fail. *)
Theorem stock_range_verdict (sample_products : list Product.t) :
  (snd (test_stock_in_valid_range sample_products) = Passed <->
   forall p, In p sample_products -> 0 <= Product.stock p <= 100000) /\
  snd (fst (test_stock_in_valid_range sample_products)) =
    map (fun p => OutOfStock.mk (Product.id p) (Product.name p))
        (filter (fun p => Product.stock p =? 0) sample_products) /\
  ((forall p, In p sample_products -> Product.stock p = 0) ->
   snd (test_stock_in_valid_range sample_products) = Passed /\
   len (snd (fst (test_stock_in_valid_range sample_products))) =
     len sample_products).
Proof.
  unfold test_stock_in_valid_range. rewrite stock_fold. simpl.
  assert (O : flat_map (fun p => snd (stock_entries p)) sample_products =
              map (fun p => OutOfStock.mk (Product.id p) (Product.name p))
                  (filter (fun p => Product.stock p =? 0) sample_products)).
  { induction sample_products as [|p l IH]; simpl; [reflexivity|].
    rewrite (proj2 (stock_entries_cases p)), IH.
    destruct (Product.stock p =? 0); reflexivity. }
  assert (V : assert_none (flat_map (fun p => fst (stock_entries p)) sample_products)
              = Passed <->
              forall p, In p sample_products -> 0 <= Product.stock p <= 100000).
  { rewrite assert_none_passed, flat_map_nil.
    split; intros H p Hp; apply (stock_entries_cases p); auto. }
  split; [exact V|]. split; [exact O|].
  intros Z0. split.
  - apply V. intros p Hp. rewrite (Z0 p Hp). lia.
  - rewrite O. unfold len. f_equal. rewrite length_map. f_equal.
    clear V O. induction sample_products as [|p l IH]; simpl; [reflexivity|].
    rewrite (Z0 p (or_introl eq_refl)). simpl. f_equal.
    apply IH. intros q Hq. apply Z0. now right.
Qed.

Lemma stock_range_verdict_witness :
  snd (test_stock_in_valid_range [crate; crate]) = Passed.
Proof.
  apply (proj2 (proj2 (stock_range_verdict [crate; crate]))).
  intros p [<-|[<-|[]]]; reflexivity.
Defined.

(** X2.  Whatever passes [test_stock_in_valid_range] also passes
    [test_negative_stock_detection] on the same products, and every
    product the latter returns makes the former fail. *)
Theorem stock_range_covers_negative (db : DataIntegrity.Database) :
  (snd (test_stock_in_valid_range (DataIntegrity.products db)) = Passed ->
   snd (Deletion.test_negative_stock_detection db) = Passed) /\
  (forall p, In p (fst (Deletion.test_negative_stock_detection db)) ->
     snd (test_stock_in_valid_range (DataIntegrity.products db)) = Failed).
Proof.
  unfold test_stock_in_valid_range, Deletion.test_negative_stock_detection.
  rewrite stock_fold. simpl. split.
  - rewrite !assert_none_passed, flat_map_nil. intros H.
    apply filter_none. intros p Hp.
    apply (stock_entries_cases p) in H; [lia|assumption].
  - intros p Hp. apply filter_In in Hp as [Hp Hneg].
    apply assert_none_failed. intros E.
    pose proof (proj1 (flat_map_nil _ _) E p Hp) as E'.
    apply (stock_entries_cases p) in E'. lia.
Qed.

Lemma stock_range_covers_negative_witness :
  snd (Deletion.test_negative_stock_detection shelf) = Passed.
Proof.
  apply (proj1 (stock_range_covers_negative shelf)). reflexivity.
Defined.

End MoreRangeFacts.

Section FloatRangeFacts.
Import RangeChecks.

Lemma total_issue_none (t : float) (order : Order.t) :
  Order.total_amount order = t ->
  (total_issue order = [] <->
   (t =? t)%float = false \/
   ((0 <? t)%float = true /\ (t <=? 100000)%float = true)).
Proof.
  intros <-. unfold total_issue. set (t := Order.total_amount order).
  destruct (float_case t 0 eq_refl) as [N L1 L2 E G1 G2|N L1 L2 E G1 G2|
                                         N L1 L2 E G1 G2|N L1 L2 E G1 G2];
    destruct (float_case t 100000 eq_refl) as [N' A1 A2 E' B1 B2|N' A1 A2 E' B1 B2|
                                                N' A1 A2 E' B1 B2|N' A1 A2 E' B1 B2];
    rewrite ?L2, ?B1; try congruence;
    split; intros H; try discriminate; try reflexivity; auto;
    destruct H as [H|[H1 H2]]; congruence.
Qed.

(** X3.  [test_order_total_in_valid_range] passes exactly when every
    total is greater than 0 and at most 100,000, or is not a number: a NaN
    compares false both ways and is not reported. *)
Theorem order_total_range_verdict (sample_orders : list Order.t) :
  snd (test_order_total_in_valid_range sample_orders) = Passed <->
  forall o, In o sample_orders ->
    (Order.total_amount o =? Order.total_amount o)%float = false \/
    ((0 <? Order.total_amount o)%float = true /\
     (Order.total_amount o <=? 100000)%float = true).
Proof.
  unfold test_order_total_in_valid_range. simpl.
  rewrite assert_none_passed, flat_map_nil.
  split; intros H o Ho; apply (total_issue_none _ o eq_refl); auto.
Qed.

(** X4.  [test_price_in_valid_range] passes exactly when every price is
    greater than 0 and at most 1,000,000, or is not a number; and whatever
    passes it also passes [test_negative_price_detection] on the same
    products. *)
Theorem price_range_verdict (db : DataIntegrity.Database) :
  (snd (ValueRanges.test_price_in_valid_range (DataIntegrity.products db))
     = Passed <->
   forall p, In p (DataIntegrity.products db) ->
     (Product.price p =? Product.price p)%float = false \/
     ((0 <? Product.price p)%float = true /\
      (Product.price p <=? 1000000)%float = true)) /\
  (snd (ValueRanges.test_price_in_valid_range (DataIntegrity.products db))
     = Passed ->
   snd (DataIntegrity.test_negative_price_detection db) = Passed).
Proof.
  unfold ValueRanges.test_price_in_valid_range,
    DataIntegrity.test_negative_price_detection. simpl.
  rewrite !assert_none_passed, flat_map_nil.
  assert (Case : forall p,
    ValueRanges.price_issue p = [] <->
    (Product.price p =? Product.price p)%float = false \/
    ((0 <? Product.price p)%float = true /\
     (Product.price p <=? 1000000)%float = true)).
  { intros p. rewrite price_issue_none.
    destruct (float_case (Product.price p) 0 eq_refl)
      as [N L1 L2 E G1 G2|N L1 L2 E G1 G2|N L1 L2 E G1 G2|N L1 L2 E G1 G2];
    destruct (float_case (Product.price p) 1000000 eq_refl)
      as [N' A1 A2 E' B1 B2|N' A1 A2 E' B1 B2|N' A1 A2 E' B1 B2|N' A1 A2 E' B1 B2];
    rewrite ?L1, ?E, ?B1, ?G1, ?A2; try congruence;
    split; intros H; auto;
    try (destruct H as (H1 & H2 & H3); discriminate);
    try (destruct H as [H|[H1 H2]]; congruence). }
  split.
  - split; intros H p Hp; apply Case; auto.
  - intros H. apply filter_none. intros p Hp.
    specialize (H p Hp). apply price_issue_none in H as (H1 & H2 & _).
    destruct (float_case (Product.price p) 0 eq_refl); congruence.
Qed.

Lemma price_range_verdict_witness :
  snd (DataIntegrity.test_negative_price_detection shelf) = Passed.
Proof.
  apply (proj2 (price_range_verdict shelf)). vm_compute. reflexivity.
Defined.

End FloatRangeFacts.

Section TimestampFacts.
Import RangeChecks.

Lemma filter_after_none {A : Type} (stamp : A -> Z) (now : Z) (l : list A) :
  filter (fun a => stamp a >? now) l = [] <->
  forall a, In a l -> stamp a <= now.
Proof.
  induction l as [|a l IH]; simpl.
  - split; [intros _ x []|reflexivity].
  - destruct (stamp a >? now) eqn:E.
    + split; [discriminate|]. intros H.
      specialize (H a (or_introl eq_refl)). lia.
    + rewrite IH. split.
      * intros H x [<-|Hx]; [lia|auto].
      * intros H x Hx. apply H. now right.
Qed.

Lemma future_passed (now : Z) (db : DataIntegrity.Database) :
  snd (test_created_dates_not_in_future now db) = Passed <->
  (forall u, In u (DataIntegrity.users db) -> User.created_at u <= now) /\
  (forall p, In p (DataIntegrity.products db) -> Product.created_at p <= now) /\
  (forall o, In o (DataIntegrity.orders db) -> Order.created_at o <= now).
Proof.
  unfold test_created_dates_not_in_future. simpl.
  rewrite assert_none_passed.
  rewrite <- (filter_after_none User.created_at),
          <- (filter_after_none Product.created_at),
          <- (filter_after_none Order.created_at).
  split.
  - intros H. apply app_eq_nil in H as [H1 H]. apply app_eq_nil in H as [H2 H3].
    apply map_eq_nil in H1, H2, H3. auto.
  - intros (-> & -> & ->). reflexivity.
Qed.

(** X5.  [test_created_dates_not_in_future] passes exactly when no user,
    product or order was created after [now]; order items are never
    looked at; and a database that passes at one time passes at every
    later time. *)
Theorem future_timestamps (now : Z) (db : DataIntegrity.Database) :
  (snd (test_created_dates_not_in_future now db) = Passed <->
   (forall u, In u (DataIntegrity.users db) -> User.created_at u <= now) /\
   (forall p, In p (DataIntegrity.products db) -> Product.created_at p <= now) /\
   (forall o, In o (DataIntegrity.orders db) -> Order.created_at o <= now)) /\
  (forall items,
     test_created_dates_not_in_future now
       (DataIntegrity.mkDatabase (DataIntegrity.users db)
          (DataIntegrity.products db) (DataIntegrity.orders db) items) =
     test_created_dates_not_in_future now db) /\
  (forall later, now <= later ->
     snd (test_created_dates_not_in_future now db) = Passed ->
     snd (test_created_dates_not_in_future later db) = Passed) /\
  len (fst (test_created_dates_not_in_future now db)) =
    len (filter (fun u => User.created_at u >? now) (DataIntegrity.users db))
    + len (filter (fun p => Product.created_at p >? now) (DataIntegrity.products db))
    + len (filter (fun o => Order.created_at o >? now) (DataIntegrity.orders db)).
Proof.
  split; [apply future_passed|]. split; [reflexivity|]. split.
  - intros later Hl H. apply future_passed in H as (Hu & Hp & Ho).
    apply future_passed. repeat split; intros x Hx;
      [specialize (Hu x Hx)|specialize (Hp x Hx)|specialize (Ho x Hx)]; lia.
  - unfold test_created_dates_not_in_future, len. simpl.
    rewrite !length_app, !length_map. lia.
Qed.

Lemma future_timestamps_witness :
  snd (test_created_dates_not_in_future 2000000 shop) = Passed.
Proof.
  apply (proj1 (proj2 (proj2 (future_timestamps 1000000 shop))));
    [lia|reflexivity].
Defined.

Lemma valid_status_spec (status : str) :
  is_valid_status status = true <-> In status valid_statuses.
Proof.
  unfold is_valid_status. rewrite existsb_exists. split.
  - intros (x & Hx & E). apply str_eqb_eq in E. now subst.
  - intros H. exists status. split; [assumption|apply str_eqb_refl].
Qed.

(** X6.  [test_order_status_values] passes exactly when every status is
    one of [pending], [completed], [cancelled], compared as exact strings:
    an order whose status changes under lowercasing or under stripping of
    whitespace makes it fail. *)
Theorem order_status_verdict (sample_orders : list Order.t) :
  (snd (test_order_status_values sample_orders) = Passed <->
   forall o, In o sample_orders -> In (Order.status o) valid_statuses) /\
  (forall o, In o sample_orders ->
     lower (Order.status o) <> Order.status o \/
     strip (Order.status o) <> Order.status o ->
     snd (test_order_status_values sample_orders) = Failed).
Proof.
  assert (P : snd (test_order_status_values sample_orders) = Passed <->
              forall o, In o sample_orders -> In (Order.status o) valid_statuses).
  { unfold test_order_status_values. simpl.
    rewrite assert_none_passed, flat_map_nil.
    split; intros H o Ho; specialize (H o Ho).
    - apply valid_status_spec. unfold status_issue in H.
      destruct (is_valid_status (Order.status o)); [reflexivity|discriminate].
    - apply valid_status_spec in H. unfold status_issue. now rewrite H. }
  split; [exact P|].
  intros o Ho Hchg.
  destruct (snd (test_order_status_values sample_orders)) eqn:V; [|reflexivity].
  exfalso. pose proof (proj1 P eq_refl o Ho) as Hin.
  destruct Hin as [E|[E|[E|[]]]]; rewrite <- E in Hchg;
    destruct Hchg as [H|H]; apply H; reflexivity.
Qed.

Lemma order_status_verdict_witness :
  snd (test_order_status_values
         [order_b; Order.mk 8 1 (lit "Pending") 10%float 0]) = Failed.
Proof.
  apply (proj2 (order_status_verdict
                  [order_b; Order.mk 8 1 (lit "Pending") 10%float 0])
           (Order.mk 8 1 (lit "Pending") 10%float 0)).
  - right. now left.
  - left. vm_compute. discriminate.
Defined.

End TimestampFacts.

(** ** Duplicate keys *)

Section MoreDuplicateFacts.
Import Duplicates DuplicateChecks.

Lemma count_in (e : str) (keys : list str) :
  In e keys -> 0 < len (filter (str_eqb e) keys).
Proof.
  unfold len. induction keys as [|k keys IH]; simpl; [tauto|].
  intros [->|H].
  - rewrite str_eqb_refl. cbn [List.length]. lia.
  - destruct (str_eqb e k); cbn [List.length]; [lia|auto].
Qed.

Lemma count_cons (e k : str) (keys : list str) :
  len (filter (str_eqb e) (k :: keys)) =
  (if str_eqb e k then 1 else 0) + len (filter (str_eqb e) keys).
Proof.
  unfold len. cbn [filter]. destruct (str_eqb e k); cbn [List.length]; lia.
Qed.

Lemma counts_small_distinct (keys : list str) :
  (forall e, len (filter (str_eqb e) keys) <= 1) -> NoDup keys.
Proof.
  induction keys as [|k keys IH]; intros H; [constructor|].
  constructor.
  - intros Hin. apply count_in in Hin. specialize (H k).
    rewrite count_cons, str_eqb_refl in H. lia.
  - apply IH. intros e. specialize (H e). rewrite count_cons in H.
    destruct (str_eqb e k); lia.
Qed.

(** No group has two members exactly when the keys are pairwise
    distinct. *)
Lemma no_group_iff_distinct (keys : list str) :
  having_many (group_count keys) = [] <-> NoDup keys.
Proof.
  unfold having_many. split.
  - intros H. apply counts_small_distinct. intros e.
    destruct (in_dec str_dec e keys) as [Hin|Hout].
    + assert (In (e, len (filter (str_eqb e) keys)) (group_count keys)) as G
        by (apply in_group_count; auto).
      destruct (1 <? len (filter (str_eqb e) keys)) eqn:L; [|lia].
      assert (In (e, len (filter (str_eqb e) keys))
                 (filter (fun g => 1 <? snd g) (group_count keys))) as F
        by (apply filter_In; auto).
      rewrite H in F. contradiction.
    + destruct (Z_lt_le_dec 0 (len (filter (str_eqb e) keys))) as [P|P]; [|lia].
      apply count_positive in P. contradiction.
  - intros N. apply filter_none. intros [e n] G.
    apply in_group_count in G as [_ ->]. simpl.
    pose proof (count_nodup e keys N). lia.
Qed.

Lemma groups_spec {A : Type} (key : A -> str) (rows : list A) (e : str) (n : Z) :
  In (e, n) (having_many (group_count (map key rows))) <->
  n = len (filter (fun r => str_eqb e (key r)) rows) /\ 1 < n.
Proof.
  unfold having_many. rewrite filter_In, in_group_count, count_keys. simpl.
  split.
  - intros [[_ ->] H]. split; [reflexivity|lia].
  - intros [-> H]. repeat split; [|lia].
    apply count_positive. rewrite count_keys. lia.
Qed.

(** X7.  [test_no_duplicate_skus] passes exactly when the SKUs are
    pairwise distinct as exact strings; otherwise it returns each SKU
    held by several products, with the number of products. *)
Theorem duplicate_skus (products : list Product.t) :
  (snd (test_no_duplicate_skus products) = Passed <->
   NoDup (map Product.sku products)) /\
  (forall sku n,
     In (sku, n) (fst (test_no_duplicate_skus products)) <->
     n = len (filter (fun p => str_eqb sku (Product.sku p)) products) /\
     1 < n).
Proof.
  unfold test_no_duplicate_skus. simpl. split.
  - rewrite assert_none_passed. apply no_group_iff_distinct.
  - intros sku n. apply groups_spec.
Qed.

(** X8.  [test_no_duplicate_emails] passes exactly when the lowercased
    emails are pairwise distinct. *)
Theorem duplicate_emails_verdict (users : list User.t) :
  snd (test_no_duplicate_emails users) = Passed <->
  NoDup (map (fun u => sql_lower (User.email u)) users).
Proof.
  unfold test_no_duplicate_emails. simpl.
  rewrite assert_none_passed. apply no_group_iff_distinct.
Qed.

(** X9.  [test_no_duplicate_user_names_suspicious] passes whatever it
    finds; what it finds is empty exactly when the names are pairwise
    distinct, and otherwise holds each shared name with its count. *)
Theorem duplicate_names (users : list User.t) :
  snd (test_no_duplicate_user_names_suspicious users) = Passed /\
  (fst (test_no_duplicate_user_names_suspicious users) = [] <->
   NoDup (map User.name users)) /\
  (forall name n,
     In (name, n) (fst (test_no_duplicate_user_names_suspicious users)) <->
     n = len (filter (fun u => str_eqb name (User.name u)) users) /\ 1 < n).
Proof.
  unfold test_no_duplicate_user_names_suspicious. simpl.
  split; [reflexivity|]. split.
  - apply no_group_iff_distinct.
  - intros name n. apply groups_spec.
Qed.

End MoreDuplicateFacts.

(** ** Adjacent pairs of the sorted orders *)

Section MoreOrderFacts.
Import Duplicates.

Lemma key_le_refl (a : Order.t) : key_le a a.
Proof. unfold key_le. lia. Qed.

Lemma key_le_trans (a b c : Order.t) : key_le a b -> key_le b c -> key_le a c.
Proof. unfold key_le. lia. Qed.

Lemma key_le_antisym (a b : Order.t) :
  key_le a b -> key_le b a -> order_key a = order_key b.
Proof. unfold key_le, order_key. intros H1 H2. f_equal; lia. Qed.

Lemma key_lt_not_le (a b : Order.t) : key_lt a b -> ~ key_le b a.
Proof. unfold key_lt, key_le. lia. Qed.

Lemma sorted_strongly (l : list Order.t) :
  Sorted key_le l -> StronglySorted key_le l.
Proof. apply Sorted_StronglySorted. intros a b c. apply key_le_trans. Qed.

Lemma order_by_sorted (orders : list Order.t) :
  StronglySorted key_le (order_by_user_created orders) /\
  Permutation (order_by_user_created orders) orders.
Proof.
  destruct (order_by_fold orders [] (Sorted_nil _)) as [S P].
  rewrite app_nil_r in P. split; [now apply sorted_strongly|exact P].
Qed.

Lemma adjacent_pairs_split {A : Type} (l : list A) (a b : A) :
  In (a, b) (adjacent_pairs l) -> exists l1 l2, l = l1 ++ a :: b :: l2.
Proof.
  induction l as [|x l IH]; simpl; [tauto|].
  destruct l as [|y l]; [intros []|].
  intros [E|H].
  - injection E as -> ->. exists [], l. reflexivity.
  - destruct (IH H) as (l1 & l2 & E). exists (x :: l1), l2.
    simpl. now rewrite E.
Qed.

Lemma adjacent_pairs_length {A : Type} (l : list A) :
  List.length (adjacent_pairs l) = Nat.pred (List.length l).
Proof.
  induction l as [|x l IH]; [reflexivity|].
  destruct l as [|y l]; [reflexivity|].
  change (adjacent_pairs (x :: y :: l)) with ((x, y) :: adjacent_pairs (y :: l)).
  cbn [List.length] in *. now rewrite IH.
Qed.

Lemma strongly_sorted_split (l1 l2 : list Order.t) (a b x : Order.t) :
  StronglySorted key_le (l1 ++ a :: b :: l2) ->
  In x (l1 ++ a :: b :: l2) -> key_le x a \/ key_le b x.
Proof.
  intros S Hx.
  induction l1 as [|y l1 IH]; simpl in *.
  - apply StronglySorted_inv in S as [S Ha].
    apply StronglySorted_inv in S as [_ Hb].
    destruct Hx as [<-|[<-|Hx]].
    + left. apply key_le_refl.
    + right. apply key_le_refl.
    + right. rewrite Forall_forall in Hb. auto.
  - apply StronglySorted_inv in S as [S Hy].
    destruct Hx as [<-|Hx]; [|auto].
    left. rewrite Forall_forall in Hy. apply Hy.
    apply in_or_app. right. now left.
Qed.

Lemma duplicate_entries_length (pairs : list (Order.t * Order.t)) :
  (List.length (flat_map duplicate_entry pairs) <= List.length pairs)%nat.
Proof.
  induction pairs as [|[o1 o2] pairs IH]; [simpl; lia|].
  cbn [flat_map List.length]. rewrite length_app.
  assert (List.length (duplicate_entry (o1, o2)) <= 1)%nat
    by (unfold duplicate_entry; destruct (similar o1 o2); simpl; lia).
  lia.
Qed.

(** X10.  [test_exact_duplicate_orders] compares neighbours only: with
    fewer than two orders it reports nothing, it never reports more pairs
    than there are orders less one, and two orders with a third one
    sorting strictly between them are never compared, however alike they
    are. *)
Theorem neighbours_only (orders : list Order.t) :
  ((List.length orders < 2)%nat ->
   fst (test_exact_duplicate_orders orders) = []) /\
  (orders <> [] ->
   len (fst (test_exact_duplicate_orders orders)) <= len orders - 1) /\
  (forall o1 x o2,
     In x orders -> key_lt o1 x -> key_lt x o2 ->
     ~ In (o1, o2) (adjacent_pairs (order_by_user_created orders))).
Proof.
  destruct (order_by_sorted orders) as [S P].
  pose proof (Permutation_length P) as L.
  unfold test_exact_duplicate_orders. simpl. split; [|split].
  - intros H.
    destruct (order_by_user_created orders) as [|a [|b l]]; try reflexivity.
    simpl in L. lia.
  - intros Hne.
    pose proof (duplicate_entries_length
                  (adjacent_pairs (order_by_user_created orders))) as D.
    rewrite adjacent_pairs_length, L in D.
    destruct orders as [|o orders]; [congruence|].
    unfold len. cbn [List.length] in *. lia.
  - intros o1 x o2 Hx H1 H2 Hin.
    apply adjacent_pairs_split in Hin as (l1 & l2 & E). rewrite E in S.
    assert (In x (l1 ++ o1 :: o2 :: l2)) as Hx'.
    { rewrite <- E. apply (Permutation_in x (Permutation_sym P) Hx). }
    destruct (strongly_sorted_split l1 l2 o1 o2 x S Hx') as [H|H].
    + now apply (key_lt_not_le o1 x).
    + now apply (key_lt_not_le x o2).
Qed.

Lemma neighbours_only_witness :
  ~ In (first_click, second_click)
       (adjacent_pairs (order_by_user_created
                          [first_click; between_clicks; second_click])).
Proof.
  apply (proj2 (proj2 (neighbours_only
           [first_click; between_clicks; second_click])))
    with (x := between_clicks).
  - right. now left.
  - right. split; [reflexivity|]. simpl. lia.
  - right. split; [reflexivity|]. simpl. lia.
Defined.

(** Two sorted arrangements of the same rows agree when no two rows
    share a key. *)
Lemma sorted_unique (l l' : list Order.t) :
  StronglySorted key_le l -> StronglySorted key_le l' ->
  Permutation l l' -> NoDup (map order_key l) -> l = l'.
Proof.
  revert l'. induction l as [|a l IH]; intros l' S S' P N.
  - apply Permutation_nil in P. now subst.
  - destruct l' as [|a' l'].
    + apply Permutation_sym, Permutation_nil in P. discriminate.
    + apply StronglySorted_inv in S as [S Ha].
      apply StronglySorted_inv in S' as [S' Ha'].
      rewrite Forall_forall in Ha, Ha'.
      assert (Hin' : In a' (a :: l))
        by (apply (Permutation_in a' (Permutation_sym P)); now left).
      assert (Hin : In a (a' :: l'))
        by (apply (Permutation_in a P); now left).
      assert (L1 : key_le a a').
      { destruct Hin' as [<-|H]; [apply key_le_refl|auto]. }
      assert (L2 : key_le a' a).
      { destruct Hin as [<-|H]; [apply key_le_refl|auto]. }
      assert (E : a = a').
      { pose proof (key_le_antisym a a' L1 L2) as K.
        destruct Hin' as [E|H]; [now symmetry|].
        simpl in N. apply NoDup_cons_iff in N as [N _].
        exfalso. apply N. rewrite K. now apply in_map. }
      subst a'. f_equal. apply IH; auto.
      * now apply Permutation_cons_inv in P.
      * simpl in N. now apply NoDup_cons_iff in N.
Qed.

(** X11.  When no two orders share both user and creation time, the
    result of [test_exact_duplicate_orders] does not depend on the order
    in which the table returns its rows. *)
Theorem row_order_irrelevant (orders orders' : list Order.t) :
  Permutation orders orders' ->
  NoDup (map order_key orders) ->
  test_exact_duplicate_orders orders = test_exact_duplicate_orders orders'.
Proof.
  intros P N.
  destruct (order_by_sorted orders) as [S Q].
  destruct (order_by_sorted orders') as [S' Q'].
  assert (E : order_by_user_created orders = order_by_user_created orders').
  { apply sorted_unique; auto.
    - rewrite Q, P. now symmetry.
    - apply (Permutation_NoDup (l := map order_key orders)); [|exact N].
      apply Permutation_map. now symmetry. }
  unfold test_exact_duplicate_orders. now rewrite E.
Qed.

Lemma row_order_irrelevant_witness :
  test_exact_duplicate_orders [second_click; other_order; first_click] =
  test_exact_duplicate_orders [first_click; second_click; other_order].
Proof.
  apply row_order_irrelevant.
  - apply Permutation_sym, Permutation_cons_append.
  - repeat constructor; simpl; intros H;
      repeat (destruct H as [H|H]; try discriminate); assumption.
Defined.

End MoreOrderFacts.

(** ** The email checks, one by one *)

Section MoreEmailFacts.
Import EmailValidation.

Ltac flatten_app := repeat first [rewrite <- app_assoc | progress simpl].

Lemma star_of_class (p : ascii -> bool) (s : str) :
  Forall (fun c => p c = true) s -> Matches (Star (Chr p)) s.
Proof.
  induction 1 as [|c s Hc _ IH]; [constructor|].
  change (c :: s) with ([c] ++ s). constructor; [now constructor|exact IH].
Qed.

Lemma plus_of_class (p : ascii -> bool) (s : str) :
  s <> [] -> Forall (fun c => p c = true) s -> Matches (plus (Chr p)) s.
Proof.
  intros Hne F. destruct s as [|c s]; [contradiction|].
  inversion F; subst. change (c :: s) with ([c] ++ s).
  constructor; [now constructor|now apply star_of_class].
Qed.

Lemma at_least_of_class (p : ascii -> bool) (n : nat) (s : str) :
  Forall (fun c => p c = true) s -> (n <= List.length s)%nat ->
  Matches (at_least n (Chr p)) s.
Proof.
  revert s. induction n as [|n IH]; intros s F L; simpl.
  - now apply star_of_class.
  - destruct s as [|c s]; [simpl in L; lia|].
    inversion F; subst. change (c :: s) with ([c] ++ s).
    constructor; [now constructor|]. apply IH; [assumption|simpl in L; lia].
Qed.

Lemma chr_matches (c : ascii) : Matches (chr c) [c].
Proof. constructor. apply Ascii.eqb_refl. Qed.

Lemma dollar_matches (tail : str) :
  tail = [] \/ tail = [newline] -> Matches dollar tail.
Proof.
  intros [-> | ->]; [apply MAltL; constructor|apply MAltR; apply chr_matches].
Qed.

(** X12.  [email_pattern.match] accepts exactly the strings made of a
    non-empty local part over [a-zA-Z0-9._%+-], an [@], a non-empty
    domain over [a-zA-Z0-9.-], a dot and at least two letters, followed
    by nothing or by one line feed.  (The docstring's "tld: 2-6 letters"
    is not enforced: any number of letters from two on is taken.) *)
Theorem email_pattern_language (s : str) :
  match_anchored email_pattern s = true <-> Accepted s.
Proof.
  split; [apply match_accepted|].
  intros [l d t z tail -> Hl Fl Hd Fd Ft Lt Htail].
  unfold match_anchored. apply matchb_spec.
  replace (l ++ "@"%char :: (d ++ "."%char :: t ++ [z]) ++ tail)
    with ((l ++ ["@"%char] ++ d ++ ["."%char] ++ (t ++ [z])) ++ tail)
    by now flatten_app.
  constructor; [|now apply dollar_matches].
  unfold email_pattern.
  constructor; [now apply plus_of_class|].
  constructor; [apply chr_matches|].
  constructor; [now apply plus_of_class|].
  constructor; [apply chr_matches|].
  now apply at_least_of_class.
Qed.

Lemma split_never_empty (sep : ascii) (s : str) : split sep s <> [].
Proof.
  induction s as [|c s IH]; simpl; [discriminate|].
  destruct (Ascii.eqb c sep); [discriminate|].
  destruct (split sep s); discriminate.
Qed.

Lemma split_one (sep : ascii) (s : str) :
  List.length (split sep s) = 1%nat -> contains sep s = false.
Proof.
  induction s as [|c s IH]; simpl; [reflexivity|].
  rewrite (Ascii.eqb_sym sep c).
  destruct (Ascii.eqb c sep) eqn:E; simpl.
  - pose proof (split_never_empty sep s).
    destruct (split sep s); [contradiction|discriminate].
  - pose proof (split_never_empty sep s) as Hne.
    destruct (split sep s) as [|p ps] eqn:S; [contradiction|].
    simpl in *. auto.
Qed.

Lemma split_two (sep : ascii) (s : str) :
  List.length (split sep s) = 2%nat ->
  exists l d, split sep s = [l; d] /\ s = l ++ sep :: d /\
              contains sep l = false /\ contains sep d = false.
Proof.
  induction s as [|c s IH]; simpl; [discriminate|].
  destruct (Ascii.eqb c sep) eqn:E; simpl.
  - intros L. injection L as L. apply Ascii.eqb_eq in E. subst c.
    pose proof (split_one sep s L) as N.
    exists [], s. rewrite (split_without _ _ N). auto.
  - destruct (split sep s) as [|p ps] eqn:S; simpl; [discriminate|].
    intros L. destruct (IH L) as (l & d & E1 & E2 & N1 & N2).
    injection E1 as -> ->. exists (c :: l), d.
    repeat split; auto.
    + simpl. now rewrite E2.
    + simpl. now rewrite (Ascii.eqb_sym sep c), E, N1.
Qed.

(** The shape the two structural tests ask for. *)
Lemma structure_ok (u : User.t) :
  at_issue u = [] /\ domain_issue u = [] <->
  exists l d, User.email u = l ++ "@"%char :: d /\ l <> [] /\ d <> [] /\
              contains "@" l = false /\ contains "@" d = false /\
              contains "." d = true.
Proof.
  unfold at_issue, domain_issue. split.
  - intros [A D]. destruct (contains "@" (User.email u)) eqn:C;
      [|discriminate]. simpl in D.
    destruct (Nat.eqb (List.length (split "@" (User.email u))) 2) eqn:L;
      [|discriminate].
    apply Nat.eqb_eq in L.
    destruct (split_two _ _ L) as (l & d & S & E & N1 & N2).
    rewrite S in D.
    change (nth 1 [l; d] []) with d in D. change (nth 0 [l; d] []) with l in D.
    destruct d as [|c d]; [discriminate|]. destruct l as [|c' l]; [discriminate|].
    exists (c' :: l), (c :: d).
    destruct (contains "." (c :: d)) eqn:Dot; [|discriminate].
    repeat split; auto; discriminate.
  - intros (l & d & E & Hl & Hd & N1 & N2 & Dot). rewrite E.
    rewrite contains_app, contains_cons, Ascii.eqb_refl, orb_true_r.
    rewrite (split_at_first _ _ _ N1), (split_without _ _ N2).
    split; [reflexivity|].
    change (nth 1 [l; d] []) with d. change (nth 0 [l; d] []) with l.
    rewrite Dot. destruct l; [contradiction|]. destruct d; [contradiction|].
    reflexivity.
Qed.

(** X13.  [test_email_has_domain] says nothing about an email that has
    no [@] (that is left to [test_email_contains_at_symbol]); the two
    tests pass together exactly when every email is a non-empty local
    part, one [@], and a non-empty domain that contains a dot. *)
Theorem structure_tests (sample_users : list User.t) :
  (forall u, contains "@" (User.email u) = false -> domain_issue u = []) /\
  (snd (test_email_contains_at_symbol sample_users) = Passed /\
   snd (test_email_has_domain sample_users) = Passed <->
   forall u, In u sample_users ->
     exists l d, User.email u = l ++ "@"%char :: d /\ l <> [] /\ d <> [] /\
                 contains "@" l = false /\ contains "@" d = false /\
                 contains "." d = true).
Proof.
  split.
  - intros u H. unfold domain_issue. now rewrite H.
  - unfold test_email_contains_at_symbol, test_email_has_domain. simpl.
    rewrite !assert_none_passed, !flat_map_nil. split.
    + intros [A D] u Hu. apply structure_ok. auto.
    + intros H. split; intros u Hu; apply (structure_ok u); auto.
Qed.

End MoreEmailFacts.

Section WhitespaceFacts.
Import EmailValidation.

Lemma lstrip_length (s : str) : (List.length (lstrip s) <= List.length s)%nat.
Proof.
  induction s as [|c s IH]; simpl; [lia|].
  destruct (isspace c); simpl; lia.
Qed.

Lemma rstrip_length (s : str) : (List.length (rstrip s) <= List.length s)%nat.
Proof.
  unfold rstrip. rewrite length_rev, <- (length_rev s). apply lstrip_length.
Qed.

Lemma lstrip_fixed (c : ascii) (s : str) :
  lstrip (c :: s) = c :: s <-> isspace c = false.
Proof.
  simpl. destruct (isspace c) eqn:E; split; try congruence; try reflexivity.
  intros H. pose proof (lstrip_length s) as L. rewrite H in L. simpl in L. lia.
Qed.

Lemma rstrip_fixed (s : str) (c : ascii) :
  rstrip (s ++ [c]) = s ++ [c] <-> isspace c = false.
Proof.
  split; [|apply rstrip_nonspace].
  destruct (isspace c) eqn:E; [|reflexivity].
  rewrite (rstrip_space _ _ E). intros H.
  pose proof (rstrip_length s) as L. rewrite H, length_app in L. simpl in L. lia.
Qed.

Lemma strip_fixed (s : str) : strip s = s <-> clean_ends s.
Proof.
  destruct s as [|c s]; [split; reflexivity|].
  unfold clean_ends. split.
  - intros H.
    assert (Hl : lstrip (c :: s) = c :: s).
    { destruct (isspace c) eqn:E; [|now apply (proj2 (lstrip_fixed c s))].
      exfalso. unfold strip in H. simpl in H. rewrite E in H.
      pose proof (rstrip_length (lstrip s)) as L1.
      pose proof (lstrip_length s) as L2. rewrite H in L1. simpl in L1. lia. }
    split; [now apply (proj1 (lstrip_fixed c s))|].
    unfold strip in H. rewrite Hl in H.
    destruct (exists_last (l := c :: s)) as (s' & z & E); [discriminate|].
    rewrite E in H |- *. rewrite last_last.
    now apply (proj1 (rstrip_fixed s' z)).
  - intros [Hc Hz]. unfold strip.
    rewrite (proj2 (lstrip_fixed c s) Hc).
    destruct (exists_last (l := c :: s)) as (s' & z & E); [discriminate|].
    rewrite E in Hz |- *. rewrite last_last in Hz.
    now apply (proj2 (rstrip_fixed s' z)).
Qed.

Lemma whitespace_issues_none (u : User.t) :
  whitespace_issues u = [] <->
  contains " " (User.email u) = false /\ clean_ends (User.email u).
Proof.
  unfold whitespace_issues. rewrite <- strip_fixed.
  destruct (str_eqb (User.email u) (strip (User.email u))) eqn:E.
  - apply str_eqb_eq in E. destruct (contains " " (User.email u)); simpl.
    + split; [discriminate|]. intros [? _]. discriminate.
    + split; [auto|reflexivity].
  - simpl. split; [discriminate|]. intros [_ H].
    rewrite H, str_eqb_refl in E. discriminate.
Qed.

(** [repr] of a string of printable characters without quote or backslash
    is the string between single quotes. *)
Lemma repr_plain (s : str) :
  (forall c, In c s ->
     isprintable c = true /\ c <> single_quote /\ c <> double_quote /\
     c <> backslash) ->
  repr s = single_quote :: s ++ [single_quote].
Proof.
  intros H. unfold repr.
  assert (Q : repr_quote s = single_quote).
  { unfold repr_quote.
    assert (contains single_quote s = false) as ->; [|reflexivity].
    unfold contains. apply not_true_iff_false. intros T.
    apply existsb_exists in T. destruct T as (c & Hc & E).
    apply Ascii.eqb_eq in E. subst c. now destruct (H _ Hc) as (_ & N & _). }
  rewrite Q. clear Q. cbv zeta. f_equal. f_equal.
  induction s as [|c s IH]; [reflexivity|].
  cbn [flat_map]. rewrite IH by (intros x Hx; apply H; now right).
  destruct (H c (or_introl eq_refl)) as (P & N1 & N2 & N3).
  assert (repr_char single_quote c = [c]) as ->; [|reflexivity].
  clear - P N1 N3.
  destruct c as [[] [] [] [] [] [] [] []];
    first [ reflexivity | discriminate P | now elim N1 | now elim N3 ].
Qed.

(** X14.  [test_email_no_whitespace] passes exactly when no email has a
    space anywhere or a whitespace character at either end; whitespace
    other than a space inside an email goes unnoticed.  An email that
    begins or ends with a space is entered twice, once under each
    issue: first as its [repr], then as it is.  For an email of printable
    characters without quote or backslash the [repr] is the email between
    single quotes. *)
Theorem whitespace_verdict (sample_users : list User.t) :
  (snd (test_email_no_whitespace sample_users) = Passed <->
   forall u, In u sample_users ->
     contains " " (User.email u) = false /\ clean_ends (User.email u)) /\
  (forall u rest,
     User.email u = " "%char :: rest \/ User.email u = rest ++ [" "%char] ->
     whitespace_issues u =
     [mkIssue (User.id u) None (repr (User.email u))
        "Leading/trailing whitespace";
      mkIssue (User.id u) None (User.email u) "Contains spaces"]) /\
  (forall u,
     (forall c, In c (User.email u) ->
        isprintable c = true /\ c <> single_quote /\ c <> double_quote /\
        c <> backslash) ->
     repr (User.email u) = single_quote :: User.email u ++ [single_quote]).
Proof.
  split; [|split].
  - unfold test_email_no_whitespace. simpl.
    rewrite assert_none_passed, flat_map_nil.
    split; intros H u Hu; apply whitespace_issues_none; auto.
  - intros u rest H. unfold whitespace_issues.
    assert (C : contains " " (User.email u) = true).
    { destruct H as [-> | ->]; [reflexivity|].
      rewrite contains_app. simpl. apply orb_true_r. }
    assert (S : str_eqb (User.email u) (strip (User.email u)) = false).
    { destruct (str_eqb (User.email u) (strip (User.email u))) eqn:E;
        [|reflexivity].
      apply str_eqb_eq in E. symmetry in E. apply strip_fixed in E.
      destruct H as [H|H]; rewrite H in E.
      - destruct E as [E _]. discriminate.
      - destruct (rest ++ [" "%char]) as [|c s] eqn:R.
        + destruct rest; discriminate.
        + destruct E as [_ E]. rewrite <- R, last_last in E. discriminate. }
    rewrite C, S. reflexivity.
  - intros u. apply repr_plain.
Qed.

Lemma whitespace_verdict_witness :
  snd (test_email_no_whitespace [tabbed]) = Passed /\
  whitespace_issues padded =
    [mkIssue 42 None (lit "' pad@example.com'") "Leading/trailing whitespace";
     mkIssue 42 None (lit " pad@example.com") "Contains spaces"].
Proof.
  split.
  - apply (proj1 (whitespace_verdict [tabbed])).
    intros u [<-|[]]. vm_compute. auto.
  - rewrite (proj1 (proj2 (whitespace_verdict [tabbed])) padded
               (lit "pad@example.com")); [reflexivity|now left].
Defined.

Lemma filter_shorter {A : Type} (f : A -> bool) (l : list A) :
  len (filter f l) <= len l.
Proof.
  unfold len. induction l as [|a l IH]; simpl; [lia|].
  destruct (f a); cbn [List.length]; lia.
Qed.

Lemma filter_all {R : Type} (keep : R -> bool) (rows : list R) :
  (forall r, In r rows -> keep r = true) -> filter keep rows = rows.
Proof.
  intros H. induction rows as [|r rows IH]; simpl; [reflexivity|].
  rewrite (H r (or_introl eq_refl)). f_equal. apply IH.
  intros x Hx. apply H. now right.
Qed.

(** X15.  [test_email_suspicious_patterns] enters a user at most once,
    however many patterns the email contains.  It passes on an empty user
    list; with fewer than ten users a single suspicious email makes it
    fail; and it fails whenever every user of a non-empty list is
    suspicious. *)
Theorem suspicious_small_batches (sample_users : list User.t) :
  len (fst (test_email_suspicious_patterns sample_users)) <= len sample_users /\
  (sample_users = [] ->
   snd (test_email_suspicious_patterns sample_users) = Passed) /\
  (len sample_users < 10 ->
   (snd (test_email_suspicious_patterns sample_users) = Failed <->
    exists u, In u sample_users /\ is_suspicious u = true)) /\
  (sample_users <> [] ->
   (forall u, In u sample_users -> is_suspicious u = true) ->
   snd (test_email_suspicious_patterns sample_users) = Failed).
Proof.
  set (flagged := len (filter is_suspicious sample_users)).
  assert (L : len (fst (test_email_suspicious_patterns sample_users)) = flagged).
  { unfold flagged, len, test_email_suspicious_patterns. simpl. f_equal.
    rewrite <- (length_map (fun f => (s_user_id f, s_email f))),
      suspicious_entries. apply length_map. }
  assert (V : snd (test_email_suspicious_patterns sample_users) = Failed <->
              len sample_users < 10 * flagged).
  { rewrite <- exceeds_tenth_spec.
    change (snd (test_email_suspicious_patterns sample_users))
      with (if exceeds_tenth
                 (len (fst (test_email_suspicious_patterns sample_users)))
                 (len sample_users)
            then Failed else Passed).
    rewrite L.
    destruct (exceeds_tenth flagged (len sample_users)); split; congruence. }
  assert (B : flagged <= len sample_users) by apply filter_shorter.
  assert (Pos : 0 < flagged <->
                exists u, In u sample_users /\ is_suspicious u = true).
  { unfold flagged, len.
    destruct (filter is_suspicious sample_users) as [|u l] eqn:F.
    - split; [simpl; lia|]. intros (u & Hu & Hs).
      assert (In u (filter is_suspicious sample_users)) as X
        by (apply filter_In; auto).
      rewrite F in X. contradiction.
    - split; [|cbn [List.length]; lia]. intros _. exists u.
      apply filter_In. rewrite F. now left. }
  split; [rewrite L; exact B|]. split; [|split].
  - intros ->. reflexivity.
  - intros Small. rewrite V, <- Pos. lia.
  - intros Hne All. apply V. unfold flagged. rewrite (filter_all _ _ All).
    destruct sample_users as [|u l]; [congruence|].
    unfold len. cbn [List.length]. lia.
Qed.

Lemma suspicious_small_batches_witness :
  snd (test_email_suspicious_patterns
         [User.mk 1 (lit "T") (lit "Admin@Admin.org") 0 true None; jane])
  = Failed.
Proof.
  apply (proj1 (proj2 (proj2 (suspicious_small_batches
           [User.mk 1 (lit "T") (lit "Admin@Admin.org") 0 true None; jane])))).
  - vm_compute. reflexivity.
  - exists (User.mk 1 (lit "T") (lit "Admin@Admin.org") 0 true None).
    split; [now left|vm_compute; reflexivity].
Defined.

End WhitespaceFacts.

(** ** Case consistency *)

Section CaseFacts.
Import CaseConsistency.

Lemma group_of_append (k k' : str) (v : CaseEntry.t)
  (d : list (str * list CaseEntry.t)) :
  group_of k (group_append k' v d) =
  if str_eqb k k' then group_of k d ++ [v] else group_of k d.
Proof.
  unfold group_of. induction d as [|[k'' vs] d IH]; simpl.
  - destruct (str_eqb k k'); reflexivity.
  - destruct (str_eqb k' k'') eqn:E1; simpl.
    + apply str_eqb_eq in E1. subst k''.
      destruct (str_eqb k k'); reflexivity.
    + destruct (str_eqb k k'') eqn:E2; simpl.
      * apply str_eqb_eq in E2. subst k''.
        destruct (str_eqb k k') eqn:E3; [|reflexivity].
        apply str_eqb_eq in E3. subst k'. rewrite str_eqb_refl in E1.
        discriminate.
      * exact IH.
Qed.

Lemma keys_after_append (k : str) (v : CaseEntry.t)
  (d : list (str * list CaseEntry.t)) (x : str) :
  In x (map fst (group_append k v d)) -> x = k \/ In x (map fst d).
Proof.
  induction d as [|[k' vs] d IH]; simpl.
  - intros [<-|[]]. now left.
  - destruct (str_eqb k k'); simpl; intros [<-|H]; auto.
    destruct (IH H); auto.
Qed.

Lemma group_append_keys (k : str) (v : CaseEntry.t)
  (d : list (str * list CaseEntry.t)) :
  NoDup (map fst d) -> NoDup (map fst (group_append k v d)).
Proof.
  induction d as [|[k' vs] d IH]; simpl; intros N.
  - repeat constructor. intros [].
  - destruct (str_eqb k k') eqn:E; simpl; [exact N|].
    apply NoDup_cons_iff in N as [Hk Nd].
    constructor; [|now apply IH].
    intros Hin. apply keys_after_append in Hin as [X|X]; [|contradiction].
    subst k'. rewrite str_eqb_refl in E. discriminate.
Qed.

Lemma groups_fold (users : list User.t) (d : list (str * list CaseEntry.t)) :
  NoDup (map fst d) ->
  let d' := fold_left (fun d user =>
                         group_append (lower (User.email user))
                           (case_entry user) d) users d in
  NoDup (map fst d') /\
  forall k, group_of k d' =
            group_of k d ++
            map case_entry
                (filter (fun u => str_eqb k (lower (User.email u))) users).
Proof.
  revert d. induction users as [|u users IH]; intros d N; simpl.
  - split; [assumption|]. intros k. now rewrite app_nil_r.
  - destruct (IH _ (group_append_keys (lower (User.email u)) (case_entry u) d N))
      as [N' G].
    split; [exact N'|]. intros k. rewrite G, group_of_append.
    destruct (str_eqb k (lower (User.email u))); simpl;
      now rewrite <- ?app_assoc.
Qed.

Lemma group_of_member (k : str) (vs : list CaseEntry.t)
  (d : list (str * list CaseEntry.t)) :
  NoDup (map fst d) -> In (k, vs) d -> group_of k d = vs.
Proof.
  unfold group_of. induction d as [|[k' vs'] d IH]; simpl; [tauto|].
  intros N [E|H].
  - injection E as -> ->. now rewrite str_eqb_refl.
  - apply NoDup_cons_iff in N as [Hk N].
    destruct (str_eqb k k') eqn:E; [|auto].
    apply str_eqb_eq in E. subst k'. exfalso. apply Hk.
    apply in_map_iff. exists (k, vs). auto.
Qed.

Lemma group_of_found (k : str) (d : list (str * list CaseEntry.t)) :
  group_of k d <> [] -> In (k, group_of k d) d.
Proof.
  unfold group_of.
  destruct (find (fun g => str_eqb k (fst g)) d) as [[k' vs]|] eqn:F;
    [|congruence].
  intros _. apply find_some in F as [Hin E]. simpl in *.
  apply str_eqb_eq in E. now subst.
Qed.

Lemma several_distinct (l : list str) :
  1 < len (nodup Duplicates.str_dec l) <->
  exists a b, In a l /\ In b l /\ a <> b.
Proof.
  pose proof (NoDup_nodup Duplicates.str_dec l) as N.
  unfold len. split.
  - destruct (nodup Duplicates.str_dec l) as [|a [|b r]] eqn:E;
      cbn [List.length]; try lia.
    intros _. exists a, b.
    assert (In a (nodup Duplicates.str_dec l)) as A by (rewrite E; now left).
    assert (In b (nodup Duplicates.str_dec l)) as B
      by (rewrite E; right; now left).
    apply nodup_In in A, B. repeat split; auto.
    intros ->. apply NoDup_cons_iff in N as [N _]. apply N. now left.
  - intros (a & b & A & B & Hne).
    apply (nodup_In Duplicates.str_dec) in A, B.
    destruct (nodup Duplicates.str_dec l) as [|x [|y r]];
      cbn [List.length]; try lia; simpl in A, B.
    + contradiction.
    + destruct A as [<-|[]], B as [<-|[]]. congruence.
Qed.

Lemma case_issue_entries (all_users : list User.t) (k : str) (vars : list str) :
  In (k, vars) (fst (test_email_case_consistency all_users)) <->
  vars = variations
           (map case_entry
                (filter (fun u => str_eqb k (lower (User.email u))) all_users)) /\
  1 < len vars.
Proof.
  unfold test_email_case_consistency. simpl.
  destruct (groups_fold all_users [] (NoDup_nil _)) as [N G].
  change (fold_left _ all_users []) with (email_groups all_users) in N, G.
  simpl in G. rewrite in_flat_map. split.
  - intros ([k' vs] & Hin & H). unfold case_issue in H.
    cbv beta iota in H.
    assert (L : (1 <? len (variations vs)) = true)
      by (destruct (1 <? len (variations vs)); [reflexivity|contradiction]).
    rewrite L in H.
    destruct H as [E|[]]. injection E as -> <-.
    rewrite <- G, (group_of_member _ _ _ N Hin). split; [reflexivity|lia].
  - intros [-> L]. rewrite <- G in *.
    exists (k, group_of k (email_groups all_users)). split.
    + apply group_of_found. intros E. rewrite E in L. vm_compute in L.
      discriminate.
    + unfold case_issue. cbv beta iota.
      replace (1 <? _) with true by lia. now left.
Qed.

Lemma variations_spec (k : str) (users : list User.t) (e : str) :
  In e (variations
          (map case_entry
               (filter (fun u => str_eqb k (lower (User.email u))) users))) <->
  exists u, In u users /\ User.email u = e /\ lower e = k.
Proof.
  unfold variations. rewrite nodup_In, map_map, in_map_iff. simpl. split.
  - intros (u & <- & Hu). apply filter_In in Hu as [Hu E].
    apply str_eqb_eq in E. eauto.
  - intros (u & Hu & <- & <-). exists u. split; [reflexivity|].
    apply filter_In. split; [assumption|apply str_eqb_refl].
Qed.

Lemma case_failed_iff (all_users : list User.t) :
  snd (test_email_case_consistency all_users) = Failed <->
  exists u1 u2, In u1 all_users /\ In u2 all_users /\
                lower (User.email u1) = lower (User.email u2) /\
                User.email u1 <> User.email u2.
Proof.
  change (snd (test_email_case_consistency all_users))
    with (assert_none (fst (test_email_case_consistency all_users))).
  rewrite assert_none_failed. split.
  - intros H.
    destruct (fst (test_email_case_consistency all_users)) as [|[k vars] r] eqn:E;
      [congruence|].
    assert (In (k, vars) (fst (test_email_case_consistency all_users))) as Hin
      by (rewrite E; now left).
    apply case_issue_entries in Hin as [-> L].
    apply several_distinct in L as (a & b & A & B & Hne).
    fold (variations (map case_entry
            (filter (fun u => str_eqb k (lower (User.email u))) all_users)))
      in A, B.
    assert (forall e, In e (map CaseEntry.original
              (map case_entry
                 (filter (fun u => str_eqb k (lower (User.email u))) all_users))) ->
            exists u, In u all_users /\ User.email u = e /\ lower e = k) as Src.
    { intros e He. apply variations_spec. unfold variations.
      now apply nodup_In. }
    destruct (Src a A) as (u1 & H1 & E1 & K1).
    destruct (Src b B) as (u2 & H2 & E2 & K2).
    exists u1, u2. subst a b. repeat split; auto. congruence.
  - intros (u1 & u2 & H1 & H2 & K & Hne) E.
    set (k := lower (User.email u1)).
    assert (In (k, variations (map case_entry
              (filter (fun u => str_eqb k (lower (User.email u))) all_users)))
              (fst (test_email_case_consistency all_users))) as Hin.
    { apply case_issue_entries. split; [reflexivity|].
      apply several_distinct.
      exists (User.email u1), (User.email u2). repeat split; auto;
        apply nodup_In with (decA := Duplicates.str_dec);
        apply variations_spec; eauto. }
    rewrite E in Hin. contradiction.
Qed.

(** X16.  [test_email_case_consistency] fails exactly when two users
    have emails that are spelled differently and agree once lowercased;
    each entry it returns pairs a lowercased email with its distinct
    spellings, at least two of them. *)
Theorem case_consistency (all_users : list User.t) :
  (snd (test_email_case_consistency all_users) = Failed <->
   exists u1 u2, In u1 all_users /\ In u2 all_users /\
                 lower (User.email u1) = lower (User.email u2) /\
                 User.email u1 <> User.email u2) /\
  (forall k vars,
     In (k, vars) (fst (test_email_case_consistency all_users)) ->
     NoDup vars /\ 1 < len vars /\
     forall e, In e vars <->
               exists u, In u all_users /\ User.email u = e /\ lower e = k).
Proof.
  split; [apply case_failed_iff|].
  intros k vars H. apply case_issue_entries in H as [-> L].
  split; [apply NoDup_nodup|]. split; [exact L|].
  intros e. apply variations_spec.
Qed.

Lemma lower_ascii (s : str) : is_ascii s -> sql_lower s = lower s.
Proof.
  unfold is_ascii, sql_lower, lower. induction 1 as [|c s Hc _ IH]; simpl;
    [reflexivity|].
  f_equal; [|exact IH]. clear IH. revert Hc.
  destruct c as [[] [] [] [] [] [] [] []]; vm_compute; congruence.
Qed.

Lemma nodup_map_same {A B : Type} (f : A -> B) (l : list A) (a b : A) :
  NoDup (map f l) -> In a l -> In b l -> f a = f b -> a = b.
Proof.
  induction l as [|x l IH]; simpl; [tauto|].
  intros N Ha Hb E. apply NoDup_cons_iff in N as [Hx N].
  destruct Ha as [<-|Ha], Hb as [<-|Hb]; auto.
  - exfalso. apply Hx. rewrite E. now apply in_map.
  - exfalso. apply Hx. rewrite <- E. now apply in_map.
Qed.

(** X17.  On emails written in ASCII, a failure of
    [test_email_case_consistency] implies a failure of
    [test_no_duplicate_emails]: Python's [lower()] and the database's
    [lower()] then agree, and differently spelled emails belong to
    different users. *)
Theorem case_issue_is_duplicate (all_users : list User.t) :
  (forall u, In u all_users -> is_ascii (User.email u)) ->
  snd (test_email_case_consistency all_users) = Failed ->
  snd (Duplicates.test_no_duplicate_emails all_users) = Failed.
Proof.
  intros Ascii H. apply case_failed_iff in H as (u1 & u2 & H1 & H2 & K & Hne).
  unfold Duplicates.test_no_duplicate_emails. simpl.
  apply assert_none_failed. intros E.
  apply no_group_iff_distinct in E.
  apply Hne. f_equal.
  apply (nodup_map_same (fun u => sql_lower (User.email u)) all_users); auto.
  now rewrite !lower_ascii by auto.
Qed.

Lemma case_issue_is_duplicate_witness :
  snd (Duplicates.test_no_duplicate_emails crowd_of_three) = Failed.
Proof.
  apply case_issue_is_duplicate.
  - intros u [<-|[<-|[<-|[]]]]; unfold is_ascii;
      repeat constructor.
  - vm_compute. reflexivity.
Defined.

(** Outside ASCII the two tests part: Python folds the capital A with
    grave accent, the database's [lower()] does not. *)
Lemma case_issue_without_duplicate :
  snd (test_email_case_consistency [agnes_upper; agnes_lower]) = Failed /\
  snd (Duplicates.test_no_duplicate_emails [agnes_upper; agnes_lower]) = Passed.
Proof. vm_compute. split; reflexivity. Qed.

End CaseFacts.

(** ** Deleting a user *)

Section DeletionFacts.
Import DataIntegrity Deletion.

Lemma existsb_after_delete (user_id k : Z) (users : list User.t) :
  existsb (fun u => k =? User.id u)
          (filter (fun u => negb (User.id u =? user_id)) users) =
  negb (k =? user_id) && existsb (fun u => k =? User.id u) users.
Proof.
  induction users as [|u users IH]; simpl; [now rewrite andb_false_r|].
  destruct (User.id u =? user_id) eqn:E; simpl; rewrite IH.
  - apply Z.eqb_eq in E. rewrite E.
    destruct (k =? user_id); reflexivity.
  - destruct (k =? User.id u) eqn:K; simpl; [|reflexivity].
    apply Z.eqb_eq in K. subst k. rewrite E. reflexivity.
Qed.

Lemma orphans_after_delete (user_id : Z) (db : Database) :
  fst (test_no_orphaned_orders (delete_user user_id db)) =
  filter (fun o =>
            (Order.user_id o =? user_id)
            || negb (existsb (fun u => Order.user_id o =? User.id u) (users db)))
         (orders db).
Proof.
  unfold test_no_orphaned_orders. simpl. rewrite orphaned_spec.
  apply filter_ext. intros o. rewrite existsb_after_delete.
  destruct (Order.user_id o =? user_id); reflexivity.
Qed.

(** X18.  Deleting a user without touching the orders turns exactly that
    user's orders into orphans: after the deletion
    [test_no_orphaned_orders] returns the orders it returned before
    together with the orders of the deleted user, and the checks on order
    items are unaffected. *)
Theorem deletion_makes_orphans (user_id : Z) (db : Database) :
  fst (test_no_orphaned_orders (delete_user user_id db)) =
    filter (fun o =>
              (Order.user_id o =? user_id)
              || negb (existsb (fun u => Order.user_id o =? User.id u) (users db)))
           (orders db) /\
  (snd (test_no_orphaned_orders db) = Passed ->
   fst (test_no_orphaned_orders (delete_user user_id db)) = orders_of user_id db) /\
  test_no_orphaned_order_items (delete_user user_id db) =
    test_no_orphaned_order_items db /\
  test_no_orphaned_order_items_products (delete_user user_id db) =
    test_no_orphaned_order_items_products db.
Proof.
  split; [apply orphans_after_delete|]. split; [|split; reflexivity].
  intros H. rewrite orphans_after_delete. unfold orders_of.
  apply filter_ext_in. intros o Ho.
  unfold test_no_orphaned_orders in H. simpl in H.
  rewrite assert_none_passed, orphaned_spec in H.
  assert (negb (existsb (fun u => Order.user_id o =? User.id u) (users db))
          = false) as ->.
  { destruct (negb (existsb (fun u => Order.user_id o =? User.id u) (users db)))
      eqn:E; [|reflexivity].
    assert (In o (filter (fun o => negb (existsb (fun u => Order.user_id o =? User.id u)
                                           (users db))) (orders db))) as X
      by (apply filter_In; auto).
    rewrite H in X. contradiction. }
  apply orb_false_r.
Qed.

Lemma deletion_makes_orphans_witness :
  fst (test_no_orphaned_orders (delete_user 1 shop)) = [order_b].
Proof.
  rewrite (proj1 (proj2 (deletion_makes_orphans 1 shop))); reflexivity.
Defined.

(** X19.  [test_detect_orphaned_records_after_deletion] cannot fail once
    it has a user to delete: its assertion holds for every count.  It
    passes while returning all the orders of the deleted user, each of
    which [test_no_orphaned_orders] reports on the database it leaves. *)
Theorem deletion_test_passes (db : Database) (user : User.t)
  (others : list User.t) :
  let result := test_detect_orphaned_records_after_deletion db (user :: others) in
  snd (fst result) = Passed /\
  fst (fst result) = orders_of (User.id user) db /\
  snd result = delete_user (User.id user) db /\
  (forall o, In o (fst (fst result)) ->
             In o (fst (test_no_orphaned_orders (snd result)))) /\
  (forall u, In u (users (snd result)) -> User.id u <> User.id user).
Proof.
  cbv zeta. unfold test_detect_orphaned_records_after_deletion.
  cbn [fst snd]. split; [|split; [reflexivity|split; [reflexivity|split]]].
  - set (n := len (orders_of (User.id user) (delete_user (User.id user) db))).
    assert (0 <= n) by (unfold n, len; lia).
    replace ((n =? 0) || (n >? 0)) with true by lia. reflexivity.
  - intros o Ho. rewrite orphans_after_delete.
    unfold orders_of in Ho. apply filter_In in Ho as [Ho E].
    apply filter_In. split; [assumption|]. now rewrite E.
  - intros u Hu. unfold delete_user in Hu. simpl in Hu.
    apply filter_In in Hu as [_ E]. lia.
Qed.

(** X20.  Whatever keys the database gives to the injected user and
    order, [test_inject_orphaned_order_and_detect] passes and leaves the
    database as empty as it found it. *)
Theorem inject_and_detect (user_id order_id t1 t2 : Z) :
  test_inject_orphaned_order_and_detect user_id order_id t1 t2 =
  (Passed, empty_database).
Proof.
  unfold test_inject_orphaned_order_and_detect, test_no_orphaned_orders,
    delete_user, delete_order, empty_database. simpl.
  rewrite Z.eqb_refl. simpl. rewrite Z.eqb_refl. simpl. reflexivity.
Qed.

End DeletionFacts.

(** ** The NULL probe *)

(** X21.  [test_null_required_fields_rejected] stops at the first row the
    database accepts: the row without an email is tried only after the
    row without a name was refused, so at most one of the two stays in
    the database. *)
Theorem null_probe_rows (accepts : list Session.Row -> Session.Row -> bool)
  (s : Session.t) :
  Session.pending s = [] ->
  let after :=
    snd (Session.run (Session.test_null_required_fields_rejected accepts) s) in
  Session.pending after = [] /\
  (accepts (Session.committed s) Session.missing_name = true ->
   Session.committed after = Session.committed s ++ [Session.missing_name]) /\
  (accepts (Session.committed s) Session.missing_name = false ->
   accepts (Session.committed s) Session.missing_email = true ->
   Session.committed after = Session.committed s ++ [Session.missing_email]) /\
  (accepts (Session.committed s) Session.missing_name = false ->
   accepts (Session.committed s) Session.missing_email = false ->
   Session.committed after = Session.committed s).
Proof.
  intros Hs. rewrite (fresh_session s Hs). simpl Session.committed.
  cbv zeta. unfold Session.run. rewrite null_probe_run.
  destruct (accepts (Session.committed s) Session.missing_name);
    [|destruct (accepts (Session.committed s) Session.missing_email)];
    simpl; repeat split; intros; congruence.
Qed.

Lemma null_probe_rows_witness :
  Session.committed
    (snd (Session.run
            (Session.test_null_required_fields_rejected Session.lenient)
            (Session.mk [Session.jane_row] []))) =
  [Session.jane_row; Session.missing_name].
Proof.
  apply (proj1 (proj2 (null_probe_rows Session.lenient
                         (Session.mk [Session.jane_row] []) eq_refl))).
  reflexivity.
Defined.

(** ** Fixture data under the age rule *)

(** X22.  The users that the [sample_users] fixture creates never occupy
    [test_age_in_valid_range]: there are five of them, all active, with
    ages between 18 and 80, so the test passes with both of its lists
    empty. *)
Theorem fixture_users_pass_age (a : Fixtures.Answers) :
  Fixtures.randint_in_range a ->
  len (Fixtures.sample_users a) = 5 /\
  (forall u, In u (Fixtures.sample_users a) -> User.is_active u = true) /\
  ValueRanges.test_age_in_valid_range (Fixtures.sample_users a) =
  ([], [], Passed).
Proof.
  intros R. split; [reflexivity|]. split.
  - intros u Hu. apply in_map_iff in Hu as (i & <- & _). reflexivity.
  - unfold ValueRanges.test_age_in_valid_range. rewrite age_fold. simpl.
    assert (E : forall i,
              ValueRanges.age_entries
                (User.mk (Fixtures.new_id a i) (Fixtures.fake_name a i)
                   (Fixtures.fake_email a i) (Fixtures.new_created_at a i)
                   true (Some (Fixtures.randint_18_80 a i))) = ([], [])).
    { intros i. unfold ValueRanges.age_entries, ValueRanges.age_step. simpl.
      specialize (R i).
      replace ((Fixtures.randint_18_80 a i <? 0)
               || (Fixtures.randint_18_80 a i >? 120)) with false by lia.
      replace (Fixtures.randint_18_80 a i <? 13) with false by lia.
      reflexivity. }
    rewrite !E. reflexivity.
Qed.

Lemma fixture_users_pass_age_witness :
  ValueRanges.test_age_in_valid_range (Fixtures.sample_users Fixtures.steady) =
  ([], [], Passed).
Proof.
  apply (fixture_users_pass_age Fixtures.steady).
  intros i. unfold Fixtures.steady. cbn [Fixtures.randint_18_80]. lia.
Defined.

(** ** Further consequences *)

Section FurtherFacts.
Import DataIntegrity.

Lemma items_ignore_orphans (db : Database) (extra : list OrderItem.t)
  (order : Order.t) :
  In order (orders db) ->
  (forall i o, In i extra -> In o (orders db) ->
               Order.id o <> OrderItem.order_id i) ->
  items (mkDatabase (users db) (products db) (orders db)
                    (order_items db ++ extra)) order =
  items db order.
Proof.
  intros Ho H. unfold items. simpl. rewrite filter_app.
  rewrite (filter_none _ extra); [apply app_nil_r|].
  intros i Hi. specialize (H i order Hi Ho). lia.
Qed.

Lemma flat_map_agree {A B : Type} (f g : A -> list B) (l : list A) :
  (forall x, In x l -> f x = g x) -> flat_map f l = flat_map g l.
Proof.
  induction l as [|a l IH]; simpl; intros H; [reflexivity|].
  rewrite (H a (or_introl eq_refl)), IH; [reflexivity|].
  intros x Hx. apply H. now right.
Qed.

(** X23.  Order items that belong to no order do not reach
    [test_order_total_matches_items_sum]: adding such items to the
    database changes nothing in what the test returns for the orders of
    the database, whichever interpreter sums. *)
Theorem orphan_items_do_not_count (python : CPython) (db : Database)
  (extra : list OrderItem.t) (sample_orders : list Order.t) :
  (forall o, In o sample_orders -> In o (orders db)) ->
  (forall i o, In i extra -> In o (orders db) ->
               Order.id o <> OrderItem.order_id i) ->
  test_order_total_matches_items_sum python
    (mkDatabase (users db) (products db) (orders db) (order_items db ++ extra))
    sample_orders =
  test_order_total_matches_items_sum python db sample_orders.
Proof.
  intros Hs Hx. unfold test_order_total_matches_items_sum.
  assert (E : flat_map (inconsistency python
                (mkDatabase (users db) (products db) (orders db)
                            (order_items db ++ extra))) sample_orders =
              flat_map (inconsistency python db) sample_orders).
  { apply flat_map_agree. intros o Ho.
    unfold inconsistency, calculated_total.
    now rewrite items_ignore_orphans by auto. }
  now rewrite E.
Qed.

Lemma orphan_items_do_not_count_witness :
  test_order_total_matches_items_sum From312 shop [order_b] =
  test_order_total_matches_items_sum From312
    (mkDatabase [jane] [free_sample; kettle] [order_b] [line_b]) [order_b].
Proof.
  symmetry.
  apply (orphan_items_do_not_count From312
           (mkDatabase [jane] [free_sample; kettle] [order_b] [line_b])
           [stray_line] [order_b]).
  - intros o Ho. exact Ho.
  - intros i o [<-|[]] [<-|[]]. vm_compute. congruence.
Defined.

Lemma adjacent_in_order (l : list Order.t) (a b : Order.t) :
  Sorted Duplicates.key_le l -> In (a, b) (Duplicates.adjacent_pairs l) ->
  Duplicates.key_le a b /\ In a l /\ In b l.
Proof.
  induction 1 as [|x l S IH Hd]; simpl; [tauto|].
  destruct l as [|y l]; [intros []|].
  intros [E|H].
  - injection E as -> ->. inversion Hd; subst. simpl. auto.
  - destruct (IH H) as (K & A & B). auto.
Qed.

(** X24.  In every pair that [test_exact_duplicate_orders] reports, the
    first order is the earlier one: both are orders of the table, of one
    user, and [time_diff] is the creation time of the second minus that of
    the first, between 0 and 60 seconds. *)
Theorem reported_pairs_in_time_order (orders : list Order.t)
  (d : DuplicateOrder.t) :
  In d (fst (Duplicates.test_exact_duplicate_orders orders)) ->
  exists order1 order2,
    In order1 orders /\ In order2 orders /\
    DuplicateOrder.order1_id d = Order.id order1 /\
    DuplicateOrder.order2_id d = Order.id order2 /\
    Order.user_id order1 = Order.user_id order2 /\
    Order.user_id order1 = DuplicateOrder.user_id d /\
    Order.created_at order1 <= Order.created_at order2 /\
    DuplicateOrder.time_diff d =
      Order.created_at order2 - Order.created_at order1 /\
    0 <= DuplicateOrder.time_diff d < 60000000.
Proof.
  unfold Duplicates.test_exact_duplicate_orders. simpl.
  intros H. apply in_flat_map in H as ([o1 o2] & Hp & Hd).
  destruct (order_by_fold orders [] (Sorted_nil _)) as [S P].
  rewrite app_nil_r in P.
  apply (adjacent_in_order _ _ _ S) in Hp as (K & A & B).
  unfold Duplicates.duplicate_entry in Hd.
  destruct (Duplicates.similar o1 o2) eqn:E; [|contradiction].
  destruct Hd as [<-|[]]. apply similar_spec in E as (E1 & _ & E3).
  assert (T : Order.created_at o1 <= Order.created_at o2)
    by (unfold Duplicates.key_le in K; lia).
  exists o1, o2. simpl.
  repeat split; auto; try lia;
    try (eapply Permutation_in; [exact P|assumption]).
Qed.

Lemma reported_pairs_in_time_order_witness :
  exists order1 order2,
    Order.id order1 = 21 /\ Order.id order2 = 22 /\
    Order.created_at order1 <= Order.created_at order2.
Proof.
  destruct (reported_pairs_in_time_order
              [second_click; other_order; first_click]
              (DuplicateOrder.mk 21 22 5 49.5%float 20000000))
    as (o1 & o2 & _ & _ & I1 & I2 & _ & _ & T & _).
  - vm_compute. now left.
  - exists o1, o2. simpl in I1, I2. auto.
Defined.

Lemma age_entries_bands (u : User.t) :
  match User.age u with
  | None => ValueRanges.age_entries u = ([], [])
  | Some a =>
      (a < 0 \/ 120 < a ->
       ValueRanges.age_entries u =
       ([AgeIssue.mk (User.id u) (User.name u) a
           "Age outside valid range (0-120)"], [])) /\
      (0 <= a <= 12 ->
       ValueRanges.age_entries u =
       ([], [AgeIssue.mk (User.id u) (User.name u) a
               "Minor account (<13) - may violate TOS"])) /\
      (13 <= a <= 120 -> ValueRanges.age_entries u = ([], []))
  end.
Proof.
  unfold ValueRanges.age_entries, ValueRanges.age_step.
  destruct (User.age u) as [a|]; [|reflexivity].
  repeat split; intros H.
  - replace ((a <? 0) || (a >? 120)) with true by lia. reflexivity.
  - replace ((a <? 0) || (a >? 120)) with false by lia.
    replace (a <? 13) with true by lia. reflexivity.
  - replace ((a <? 0) || (a >? 120)) with false by lia.
    replace (a <? 13) with false by lia. reflexivity.
Qed.

(** X25.  [test_age_in_valid_range] fails exactly when some age is
    negative or above 120.  Ages 0 to 12 are listed as minor accounts and
    do not make it fail; an age from 13 to 120 is listed nowhere. *)
Theorem age_bands (sample_users : list User.t) :
  (snd (ValueRanges.test_age_in_valid_range sample_users) = Failed <->
   exists u a, In u sample_users /\ User.age u = Some a /\ (a < 0 \/ 120 < a)) /\
  (forall u a, In u sample_users -> User.age u = Some a -> 0 <= a <= 12 ->
     In (AgeIssue.mk (User.id u) (User.name u) a
           "Minor account (<13) - may violate TOS")
        (snd (fst (ValueRanges.test_age_in_valid_range sample_users)))) /\
  (forall f, In f (snd (fst (ValueRanges.test_age_in_valid_range sample_users))) ->
     0 <= AgeIssue.age f <= 12) /\
  (forall f, In f (fst (fst (ValueRanges.test_age_in_valid_range sample_users))) ->
     AgeIssue.age f < 0 \/ 120 < AgeIssue.age f).
Proof.
  unfold ValueRanges.test_age_in_valid_range. rewrite age_fold. simpl.
  assert (Cases : forall u a, User.age u = Some a ->
            (a < 0 \/ 120 < a) \/ 0 <= a <= 12 \/ 13 <= a <= 120) by (intros; lia).
  split; [|split; [|split]].
  - rewrite assert_none_failed. split.
    + intros H.
      destruct (flat_map (fun u => fst (ValueRanges.age_entries u)) sample_users)
        as [|f l] eqn:E; [congruence|].
      assert (In f (flat_map (fun u => fst (ValueRanges.age_entries u))
                             sample_users)) as Hin by (rewrite E; now left).
      apply in_flat_map in Hin as (u & Hu & Hf).
      pose proof (age_entries_bands u) as B.
      destruct (User.age u) as [a|] eqn:A; [|rewrite B in Hf; contradiction].
      exists u, a. repeat split; auto.
      destruct B as (B1 & B2 & B3).
      destruct (Cases u a A) as [C|[C|C]]; [assumption| |].
      * rewrite (B2 C) in Hf. contradiction.
      * rewrite (B3 C) in Hf. contradiction.
    + intros (u & a & Hu & A & C) E.
      pose proof (age_entries_bands u) as B. rewrite A in B.
      destruct B as (B1 & _).
      pose proof (proj1 (flat_map_nil _ _) E u Hu) as X. simpl in X.
      rewrite (B1 C) in X. discriminate.
  - intros u a Hu A C. apply in_flat_map. exists u. split; [assumption|].
    pose proof (age_entries_bands u) as B. rewrite A in B.
    destruct B as (_ & B2 & _). rewrite (B2 C). now left.
  - intros f Hf. apply in_flat_map in Hf as (u & Hu & Hf).
    pose proof (age_entries_bands u) as B.
    destruct (User.age u) as [a|] eqn:A; [|rewrite B in Hf; contradiction].
    destruct B as (B1 & B2 & B3).
    destruct (Cases u a A) as [C|[C|C]].
    + rewrite (B1 C) in Hf. contradiction.
    + rewrite (B2 C) in Hf. destruct Hf as [<-|[]]. exact C.
    + rewrite (B3 C) in Hf. contradiction.
  - intros f Hf. apply in_flat_map in Hf as (u & Hu & Hf).
    pose proof (age_entries_bands u) as B.
    destruct (User.age u) as [a|] eqn:A; [|rewrite B in Hf; contradiction].
    destruct B as (B1 & B2 & B3).
    destruct (Cases u a A) as [C|[C|C]].
    + rewrite (B1 C) in Hf. destruct Hf as [<-|[]]. exact C.
    + rewrite (B2 C) in Hf. contradiction.
    + rewrite (B3 C) in Hf. contradiction.
Qed.

End FurtherFacts.
